(** * Digital Media Catalog (app.js): a shallow embedding and its properties

    The program is a menu-driven Node.js script over two JSON documents,
    [photos.json] and [albums.json].  This development embeds, function by
    function, the code of [app.js]:

    - JavaScript strings are [string]s, each character standing for the code
      unit of the same number (the range U+0000 to U+00FF); [trim] and
      [toLowerCase] are the ECMAScript operations on that range;
    - a value returned by [JSON.parse] is a [json] tree, numbers being
      integers that a double holds exactly; a JavaScript value is an
      [option json], [None] standing for [undefined];
    - an exception is the [Exn] outcome of a computation, and the console,
      the keyboard and the two files are fields of an explicit [world]. *)

From Stdlib Require Import ZArith Lia Bool Ascii String DecimalString.
From stdpp Require Import base option list strings gmap.

Open Scope Z_scope.

(** ** Strings *)

Module Str.

(** Code units that [String.prototype.trim] and [parseInt] strip: TAB, LF,
    VT, FF, CR, SP and NBSP (the members of WhiteSpace and LineTerminator
    below U+0100). *)
Definition is_space (c : ascii) : bool :=
  let n := N_of_ascii c in
  ((9 <=? n) && (n <=? 13) || (n =? 32) || (n =? 160))%N.

(** Upper-case letters with a one-to-one lower-case mapping below U+0100:
    A-Z, and the Latin-1 letters U+00C0-U+00DE without the sign U+00D7. *)
Definition is_upper (c : ascii) : bool :=
  let n := N_of_ascii c in
  ((65 <=? n) && (n <=? 90)
   || (192 <=? n) && (n <=? 222) && negb (n =? 215))%N.

Definition lower_char (c : ascii) : ascii :=
  if is_upper c then ascii_of_N (N_of_ascii c + 32) else c.

Fixpoint toLowerCase (s : string) : string :=
  match s with
  | EmptyString => EmptyString
  | String c r => String (lower_char c) (toLowerCase r)
  end.

Fixpoint trimStart (s : string) : string :=
  match s with
  | EmptyString => EmptyString
  | String c r => if is_space c then trimStart r else s
  end.

Fixpoint trimEnd (s : string) : string :=
  match s with
  | EmptyString => EmptyString
  | String c r =>
      match trimEnd r with
      | EmptyString => if is_space c then EmptyString else String c EmptyString
      | r' => String c r'
      end
  end.

Definition trim (s : string) : string := trimEnd (trimStart s).

(** *** Numbers

    A number of the program is a double.  The embedding holds the doubles
    that are integers, each as the integer it is.  [infinity] and its
    opposite stand for [Infinity] and [-Infinity], which [parseInt] and the
    conversion of a text can answer; [JSON.stringify] writes [null] for
    them, so that the documents considered hold neither. *)

Definition infinity : Z := 2 ^ 1024.

(** The quotient [p / q] of two positive integers rounded to the nearest
    integer, a tie going to the even one. *)
Definition nearest (p q : Z) : Z :=
  let n := p / q in
  let r := p - n * q in
  if (q <? 2 * r) || ((q =? 2 * r) && Z.odd n) then n + 1 else n.

(** The double nearest to the integer [n], a tie going to the even
    significand: an integer below [2 ^ 53] in size is a double, a larger one
    keeps 53 significant bits, and from [2 ^ 1024 - 2 ^ 970] on the result
    is infinite. *)
Definition double (n : Z) : Z :=
  let a := Z.abs n in
  if a <? 2 ^ 53 then n
  else
    let ulp := 2 ^ (Z.log2 a - 52) in
    Z.sgn n * Z.min (nearest a ulp * ulp) infinity.

Definition digit (c : ascii) : option Z :=
  let n := N_of_ascii c in
  if ((48 <=? n) && (n <=? 57))%N then Some (Z.of_N n - 48) else None.

(** The longest prefix of decimal digits, read left to right; [None] when
    the string does not start with a digit. *)
Fixpoint digits (acc : option Z) (s : string) : option Z :=
  match s with
  | EmptyString => acc
  | String c r =>
      match digit c with
      | Some d => digits (Some (10 * default 0 acc + d)) r
      | None => acc
      end
  end.

(** [parseInt(s, 10)]: leading white space is skipped, one sign is
    accepted, then the longest run of digits is read, and the integer it
    spells is rounded to a double; [None] is [NaN]. *)
Definition parseInt (s : string) : option Z :=
  match trimStart s with
  | String "-" r => (fun n => double (- n)) <$> digits None r
  | String "+" r => double <$> digits None r
  | r => double <$> digits None r
  end.

(** The decimal digits of an integer. *)
Definition decimal (n : Z) : string := NilEmpty.string_of_int (Z.to_int n).

(** The positive integer with the fewest significant digits among those
    that [double] sends to the double [a], the nearest to [a] if there are
    two, and the one of even last digit if they are as near; [k] counts the
    significant digits tried and [nd] the digits of [a]. *)
Fixpoint shortest (fuel : nat) (k nd a : Z) : Z :=
  match fuel with
  | O => a
  | S fuel' =>
      let p := 10 ^ (nd - k) in
      let lo := a / p * p in
      let hi := lo + p in
      match double lo =? a, double hi =? a with
      | true, true =>
          if a - lo <? hi - a then lo
          else if hi - a <? a - lo then hi
          else if Z.even (a / p) then lo else hi
      | true, false => lo
      | false, true => hi
      | false, false => shortest fuel' (k + 1) nd a
      end
  end.

Fixpoint strip_zeros (s : string) : string :=
  match s with
  | EmptyString => EmptyString
  | String c r =>
      match strip_zeros r with
      | EmptyString => if Ascii.eqb c "0" then EmptyString else String c EmptyString
      | r' => String c r'
      end
  end.

(** [String(a)] for a double [a >= 0]: every digit below [2 ^ 53], where
    each integer is a double; above, the digits of [shortest], written in
    full below [10 ^ 21] and with an exponent from there on. *)
Definition of_pos (a : Z) : string :=
  if a <? 2 ^ 53 then decimal a
  else if infinity <=? a then "Infinity"
  else
    let nd := Z.of_nat (String.length (decimal a)) in
    let v := decimal (shortest (Z.to_nat nd) 1 nd a) in
    if (String.length v <=? 21)%nat then v
    else
      let exponent := "e+" +:+ decimal (Z.of_nat (String.length v) - 1) in
      match strip_zeros v with
      | String c EmptyString => String c exponent
      | String c r => String c ("." +:+ r +:+ exponent)
      | EmptyString => v
      end.

(** [String(n)] for a number [n]. *)
Definition of_Z (n : Z) : string :=
  if n <? 0 then "-" +:+ of_pos (double (- n)) else of_pos (double n).

(** *** Texts read as numbers *)

(** What [ToNumber] answers for a text: [NaN], a double that is an
    integer, or a double that is not one, of which the embedding keeps the
    least integer above it. *)
Inductive numeric : Type :=
  | NaN
  | Int (n : Z)
  | Fraction (above : Z).

(** The double nearest to [p / q], for [p >= 0] and [q > 0].  The
    significand has 53 bits, and fewer below [2 ^ -1022], where the doubles
    are [2 ^ -1074] apart. *)
Definition double_of_ratio (p q : Z) : numeric :=
  if p =? 0 then Int 0
  else
    let e := Z.log2 p - Z.log2 q in
    let e := if p * 2 ^ Z.max 0 (- e) <? q * 2 ^ Z.max 0 e then e - 1 else e in
    let k := Z.max (e - 52) (- 1074) in
    if 0 <=? k then Int (Z.min (nearest p (q * 2 ^ k) * 2 ^ k) infinity)
    else
      let m := nearest (p * 2 ^ (- k)) q in
      if m mod 2 ^ (- k) =? 0 then Int (m / 2 ^ (- k))
      else Fraction (m / 2 ^ (- k) + 1).

Definition digit_in (base : Z) (c : ascii) : option Z :=
  let n := Z.of_N (N_of_ascii c) in
  let d := if (48 <=? n) && (n <=? 57) then Some (n - 48)
           else if (97 <=? n) && (n <=? 102) then Some (n - 87)
           else if (65 <=? n) && (n <=? 70) then Some (n - 55)
           else None in
  d ≫= fun v => if v <? base then Some v else None.

(** The integer that the whole of [s] spells in [base]; [None] when [s] is
    empty or holds another character. *)
Fixpoint numeral (base : Z) (acc : option Z) (s : string) : option Z :=
  match s with
  | EmptyString => acc
  | String c r =>
      match digit_in base c with
      | Some d => numeral base (Some (base * default 0 acc + d)) r
      | None => None
      end
  end.

(** The decimal digits [s] begins with, and what follows them. *)
Fixpoint span_digits (s : string) : string * string :=
  match s with
  | EmptyString => (EmptyString, EmptyString)
  | String c r =>
      match digit c with
      | Some _ => let (d, rest) := span_digits r in (String c d, rest)
      | None => (EmptyString, s)
      end
  end.

(** The exponent part of a decimal literal: absent, or [e] or [E], an
    optional sign and digits; [None] for anything else. *)
Definition exponent_part (s : string) : option Z :=
  match s with
  | EmptyString => Some 0
  | String c r =>
      if Ascii.eqb c "e" || Ascii.eqb c "E" then
        match r with
        | String "-" r' => Z.opp <$> numeral 10 None r'
        | String "+" r' => numeral 10 None r'
        | _ => numeral 10 None r
        end
      else None
  end.

(** An unsigned decimal literal: [Infinity], or digits with an optional
    fraction and an optional exponent, a digit at least on one side of the
    point.  A value of 400 digits or more is infinite, and one below
    [10 ^ -400] is zero. *)
Definition decimal_literal (s : string) : numeric :=
  if String.eqb s "Infinity" then Int infinity
  else
    let (whole, r1) := span_digits s in
    let (fraction, r2) :=
      match r1 with
      | String "." r => span_digits r
      | _ => (EmptyString, r1)
      end in
    if String.eqb (whole +:+ fraction) "" then NaN
    else
      match exponent_part r2 with
      | None => NaN
      | Some e =>
          let m := default 0 (numeral 10 None (whole +:+ fraction)) in
          let size := Z.of_nat (String.length (whole +:+ fraction)) in
          let e10 := e - Z.of_nat (String.length fraction) in
          if m =? 0 then Int 0
          else if 400 <? e10 then Int infinity
          else if size + e10 <? - 400 then Int 0
          else if 0 <=? e10 then double_of_ratio (m * 10 ^ e10) 1
          else double_of_ratio m (10 ^ (- e10))
      end.

Definition negated (x : numeric) : numeric :=
  match x with
  | NaN => NaN
  | Int n => Int (- n)
  | Fraction above => Fraction (1 - above)
  end.

(** [ToNumber(s)]: white space around the text is dropped; the empty text
    is zero; a text that is not a numeric literal is [NaN]. *)
Definition toNumber (s : string) : numeric :=
  match trim s with
  | EmptyString => Int 0
  | String "0" (String c r) as t =>
      if Ascii.eqb c "x" || Ascii.eqb c "X"
      then from_option (fun n => Int (double n)) NaN (numeral 16 None r)
      else if Ascii.eqb c "o" || Ascii.eqb c "O"
      then from_option (fun n => Int (double n)) NaN (numeral 8 None r)
      else if Ascii.eqb c "b" || Ascii.eqb c "B"
      then from_option (fun n => Int (double n)) NaN (numeral 2 None r)
      else decimal_literal t
  | String "-" r => negated (decimal_literal r)
  | String "+" r => decimal_literal r
  | t => decimal_literal t
  end.

End Str.

(** ** Values *)

(** What [JSON.parse] returns.  An object is the list of its own members in
    insertion order; a key occurs once. *)
#[warnings="-register-all"]
Inductive json : Type :=
  | JNull
  | JBool (b : bool)
  | JNum (n : Z)
  | JStr (s : string)
  | JArr (items : list json)
  | JObj (members : list (string * json)).

(** A JavaScript value: [None] is [undefined]. *)
Abbreviation value := (option json).
Abbreviation undefined := (@None json).
Abbreviation null := (Some JNull).

(** ** Outcomes *)

(** The exceptions this program can raise, all of them [TypeError]s:
    reading a member of [null] or [undefined], calling a member that is
    not a function, and converting to a string an object whose own
    [toString] member hides the inherited method. *)
Inductive error : Type :=
  | CannotRead (what member : string)
  | NotFunction (callee : string)
  | NoPrimitive.

(** [err.message], as Node.js words it. *)
Definition message (e : error) : string :=
  match e with
  | CannotRead what k =>
      "Cannot read properties of " +:+ what +:+ " (reading '" +:+ k +:+ "')"
  | NotFunction callee => callee +:+ " is not a function"
  | NoPrimitive => "Cannot convert object to primitive value"
  end.

(** A computation also ends when the keyboard has no further line
    ([AwaitInput]), or when the bound of a loop is infinite, which this
    embedding does not follow ([Unmodelled]). *)
Inductive stop : Type := AwaitInput | Unmodelled.

Inductive res (A : Type) : Type :=
  | Ret (a : A)
  | Exn (e : error)
  | Stop (s : stop).
Arguments Ret {A} a.
Arguments Exn {A} e.
Arguments Stop {A} s.

Definition res_bind {A B} (r : res A) (k : A -> res B) : res B :=
  match r with
  | Ret a => k a
  | Exn e => Exn e
  | Stop s => Stop s
  end.

Declare Scope res_scope.
Delimit Scope res_scope with res.
Notation "x <- r ;; k" := (res_bind r (fun x => k))
  (at level 100, r at next level, right associativity) : res_scope.

(** ** Property access, truthiness and equality *)

Fixpoint assoc (k : string) (m : list (string * json)) : value :=
  match m with
  | [] => undefined
  | (k', v) :: m' => if String.eqb k k' then Some v else assoc k m'
  end.

(** Assignment to a member: an existing key keeps its place, a new key goes
    last. *)
Fixpoint assoc_set (k : string) (v : json) (m : list (string * json))
  : list (string * json) :=
  match m with
  | [] => [(k, v)]
  | (k', v') :: m' =>
      if String.eqb k k' then (k, v) :: m' else (k', v') :: assoc_set k v m'
  end.

Definition cannot_read (what k : string) : error := CannotRead what k.

(** [x.k] for the member names the program reads ([id], [name], [title],
    [description], [filename], [date], [albums], [tags], [resolution]):
    none of them is inherited from a prototype, so only an object's own
    members answer. *)
Definition get_field (x : value) (k : string) : res value :=
  match x with
  | None => Exn (cannot_read "undefined" k)
  | Some JNull => Exn (cannot_read "null" k)
  | Some (JObj m) => Ret (assoc k m)
  | Some _ => Ret undefined
  end.

(** [x.length]. *)
Definition get_length (x : value) : res value :=
  match x with
  | None => Exn (cannot_read "undefined" "length")
  | Some JNull => Exn (cannot_read "null" "length")
  | Some (JArr l) => Ret (Some (JNum (Z.of_nat (length l))))
  | Some (JStr s) => Ret (Some (JNum (Z.of_nat (String.length s))))
  | Some (JObj m) => Ret (assoc "length" m)
  | Some _ => Ret undefined
  end.

(** [x[i]] for an index [i]. *)
Definition get_index (x : value) (i : nat) : res value :=
  let k := Str.of_Z (Z.of_nat i) in
  match x with
  | None => Exn (cannot_read "undefined" k)
  | Some JNull => Exn (cannot_read "null" k)
  | Some (JArr l) => Ret (l !! i)
  | Some (JStr s) =>
      Ret (match String.get i s with
           | Some c => Some (JStr (String c EmptyString))
           | None => undefined
           end)
  | Some (JObj m) => Ret (assoc k m)
  | Some _ => Ret undefined
  end.

(** [x.k = v] where [x] is an object, and [x[i] = v].  An assignment to a
    member of a primitive is dropped in non-strict code. *)
Definition set_field (x : json) (k : string) (v : json) : json :=
  match x with
  | JObj m => JObj (assoc_set k v m)
  | _ => x
  end.

Definition set_index (x : json) (i : nat) (v : json) : json :=
  match x with
  | JArr l => JArr (<[i := v]> l)
  | JObj m => JObj (assoc_set (Str.of_Z (Z.of_nat i)) v m)
  | _ => x
  end.

Definition truthy (x : value) : bool :=
  match x with
  | None | Some JNull => false
  | Some (JBool b) => b
  | Some (JNum n) => negb (n =? 0)
  | Some (JStr s) => negb (String.eqb s "")
  | Some (JArr _) | Some (JObj _) => true
  end.

(** [a || b] *)
Definition js_or (a b : value) : value := if truthy a then a else b.

Definition isArray (x : value) : bool :=
  match x with Some (JArr _) => true | _ => false end.

(** [a === b].  The two sides are always a number typed at the keyboard, or
    values held in different places of the parsed documents, so that two
    arrays or two objects are never the same reference. *)
Definition strict_eq (a b : value) : bool :=
  match a, b with
  | None, None => true
  | Some JNull, Some JNull => true
  | Some (JBool x), Some (JBool y) => Bool.eqb x y
  | Some (JNum x), Some (JNum y) => x =? y
  | Some (JStr x), Some (JStr y) => String.eqb x y
  | _, _ => false
  end.

(** ** Conversion to a string *)

Definition no_primitive : error := NoPrimitive.

(** [String(x)], and the conversion [+] applies to [x] next to a string.
    An array is joined with commas, [null] members giving the empty string;
    an object answers through [Object.prototype.toString], unless a member
    of its own named [toString] hides that method. *)
Fixpoint to_string (v : json) : res string :=
  match v with
  | JNull => Ret "null"
  | JBool b => Ret (if b then "true" else "false")
  | JNum n => Ret (Str.of_Z n)
  | JStr s => Ret s
  | JArr l =>
      (fix join (l : list json) : res string :=
         match l with
         | [] => Ret ""
         | x :: l' =>
             (s <- match x with JNull => Ret "" | _ => to_string x end ;;
              match l' with
              | [] => Ret s
              | _ => (r <- join l' ;; Ret (s +:+ "," +:+ r))
              end)
         end)%res l
  | JObj m =>
      match assoc "toString" m with
      | None => Ret "[object Object]"
      | Some _ => Exn no_primitive
      end
  end.

Definition String_ (x : value) : res string :=
  match x with
  | None => Ret "undefined"
  | Some v => to_string v
  end.

(** [s + x] *)
Definition concat (s : string) (x : value) : res string :=
  (t <- String_ x ;; Ret (s +:+ t))%res.

(** ** Loops *)

(** The bound of [for (let i = 0; i < x.length; i++)], as the number
    [x.length] converts to; [None] is [NaN], below which no index lies.  A
    text is read as a number, an array or an object through the text it
    converts to.  A number that is not an integer bounds the same indices as
    the least integer above it, also once 1 is subtracted from both.  Under
    an infinite bound a loop ends by a [break] or an exception only, which
    this embedding does not follow. *)
Definition to_bound (len : value) : res (option Z) :=
  match len with
  | None => Ret None
  | Some JNull => Ret (Some 0)
  | Some (JBool b) => Ret (Some (if b then 1 else 0))
  | Some (JNum n) => Ret (Some n)
  | Some v =>
      (s <- to_string v ;;
       match Str.toNumber s with
       | Str.NaN => Ret None
       | Str.Int n => if Str.infinity <=? n then Stop Unmodelled else Ret (Some n)
       | Str.Fraction above => Ret (Some above)
       end)%res
  end.

Definition iterations (bound : option Z) : nat :=
  match bound with
  | Some n => Z.to_nat n
  | None => 0%nat
  end.

Inductive step (S : Type) : Type :=
  | Next (s : S)
  | Break (s : S).
Arguments Next {S} s.
Arguments Break {S} s.

(** [n] rounds of a loop body from index [i] on, unless the body breaks. *)
Fixpoint for_res {S} (body : nat -> S -> res (step S)) (n i : nat) (s : S)
  : res S :=
  match n with
  | O => Ret s
  | Datatypes.S n' =>
      (r <- body i s ;;
       match r with
       | Next s' => for_res body n' (Datatypes.S i) s'
       | Break s' => Ret s'
       end)%res
  end.

(** ** The world: keyboard, console, files *)

(** A file either parses to a value, or its content is not JSON and
    [JSON.parse] throws with the given message.  A path outside the file
    map is a missing file. *)
Inductive file : Type :=
  | Corrupt (msg : string)
  | Content (v : json).

Inductive event : Type :=
  | Ask (question : string)
  | Out (line : string)
  | Load (path : string)
  | Save (path : string) (data : json).

(** [stdin] holds the lines the user will type; [fault] gives, for a path
    whose writes fail, the message of the failure; [host_date] is the host's
    [Date]: for a value [t] it answers with the [en-US] long date of
    [new Date(Number(t))], or [None] when that date is invalid. *)
Record world : Type := World {
  stdin : list string;
  files : gmap string file;
  fault : string -> option string;
  host_date : json -> res (option string);
  trace : list event
}.

Definition M (A : Type) : Type := world -> res A * world.

Definition ret {A} (a : A) : M A := fun w => (Ret a, w).

Definition bind {A B} (m : M A) (k : A -> M B) : M B :=
  fun w =>
    match m w with
    | (Ret a, w') => k a w'
    | (Exn e, w') => (Exn e, w')
    | (Stop s, w') => (Stop s, w')
    end.

Definition lift {A} (r : res A) : M A := fun w => (r, w).

Declare Scope io_scope.
Delimit Scope io_scope with io.
Notation "x <- m ;; k" := (bind m (fun x => k))
  (at level 100, m at next level, right associativity) : io_scope.
Notation "m ;; k" := (bind m (fun _ => k))
  (at level 100, right associativity) : io_scope.

Definition emit (e : event) : M unit :=
  fun w => (Ret tt, World (stdin w) (files w) (fault w) (host_date w) (trace w ++ [e])).

(** [console.log(line)] *)
Definition console_log (line : string) : M unit := emit (Out line).

(** [prompt(question)] of prompt-sync: the question is shown and the next
    line typed is returned. *)
Definition prompt (question : string) : M string :=
  fun w =>
    match stdin w with
    | [] =>
        (Stop AwaitInput,
         World [] (files w) (fault w) (host_date w) (trace w ++ [Ask question]))
    | a :: rest =>
        (Ret a, World rest (files w) (fault w) (host_date w) (trace w ++ [Ask question]))
    end.

Definition PHOTOS_FILE : string := "photos.json".
Definition ALBUMS_FILE : string := "albums.json".

Definition enoent (path : string) : string :=
  "ENOENT: no such file or directory, open '" +:+ path +:+ "'".

(** [readJson]: the parsed file, or [null] after a diagnostic. *)
Definition readJson (filePath : string) : M json :=
  (emit (Load filePath) ;;
   fun w =>
     match files w !! filePath with
     | Some (Content v) => ret v w
     | Some (Corrupt msg) =>
         (console_log ("Error reading file " +:+ filePath +:+ " - " +:+ msg) ;;
          ret JNull) w
     | None =>
         (console_log ("Error reading file " +:+ filePath +:+ " - " +:+ enoent filePath) ;;
          ret JNull) w
     end)%io.

(** [writeJson]: the file is replaced by the serialised data, or a
    diagnostic is printed; nothing is thrown either way. *)
Definition writeJson (filePath : string) (data : json) : M unit :=
  (emit (Save filePath data) ;;
   fun w =>
     match fault w filePath with
     | None =>
         (Ret tt, World (stdin w) (<[filePath := Content data]> (files w))
                        (fault w) (host_date w) (trace w))
     | Some msg =>
         console_log ("Error writing file " +:+ filePath +:+ " - " +:+ msg) w
     end)%io.

(** As [for_res], for a body that prints. *)
Fixpoint for_io {S} (body : nat -> S -> M (step S)) (n i : nat) (s : S) : M S :=
  match n with
  | O => ret s
  | Datatypes.S n' =>
      (r <- body i s ;;
       match r with
       | Next s' => for_io body n' (Datatypes.S i) s'
       | Break s' => ret s'
       end)%io
  end.

(** ** The program *)

(** [findPhotoById(photos, id)], lines 42-52.  The loop state is the photo
    returned from inside the loop, if any. *)
Definition findPhotoById (photos : value) (id : Z) : res value :=
  if negb (isArray photos) then Ret null
  else
    (len <- get_length photos ;;
     bound <- to_bound len ;;
     found <- for_res
                (fun i (_ : option value) =>
                   p <- get_index photos i ;;
                   pid <- get_field p "id" ;;
                   Ret (if strict_eq pid (Some (JNum id))
                        then Break (Some p) else Next None))
                (iterations bound) 0 None ;;
     Ret (default null found))%res.

(** The search for [index] in lines 161-167 and again in lines 272-278;
    [None] is the initial [-1]. *)
Definition indexOfId (photos : value) (id : Z) : res (option nat) :=
  (len <- get_length photos ;;
   bound <- to_bound len ;;
   for_res
     (fun i (_ : option nat) =>
        p <- get_index photos i ;;
        pid <- get_field p "id" ;;
        Ret (if strict_eq pid (Some (JNum id)) then Break (Some i) else Next None))
     (iterations bound) 0 None)%res.

(** [formatDate(timestamp)], lines 59-68; the calendar is the host's. *)
Definition formatDate (timestamp : value) : M string :=
  match timestamp with
  | None | Some JNull => ret "Unknown"
  | Some t =>
      (d <- (fun w => lift (host_date w t) w) ;;
       ret (default "Invalid date" d))%io
  end.

(** The loops of lines 98-103, 109-114 and 239-244: the items, each
    followed by the separator unless it is the last. *)
Definition join_loop (bound : option Z) (item : nat -> res value) (sep : string)
  : res string :=
  for_res
    (fun i str =>
       x <- item i ;;
       str' <- concat str x ;;
       Ret (Next (if (Z.of_nat i <? default 0 bound - 1) then str' +:+ sep else str')))%res
    (iterations bound) 0 "".

(** Lines 87-96: the names of the albums of a photo, in the order of its
    [albums]. *)
Definition albumNamesOf (albumIds albums : value) : res (list value) :=
  (len <- get_length albumIds ;;
   bound <- to_bound len ;;
   for_res
     (fun i albumNames =>
        aId <- get_index albumIds i ;;
        alen <- get_length albums ;;
        abound <- to_bound alen ;;
        r <- for_res
               (fun j names =>
                  a <- get_index albums j ;;
                  aid <- get_field a "id" ;;
                  if strict_eq aid aId
                  then (nm <- get_field a "name" ;; Ret (Break (names ++ [nm])))
                  else Ret (Next names))
               (iterations abound) 0 albumNames ;;
        Ret (Next r))
     (iterations bound) 0 [])%res.

Definition or_text (s fallback : string) : string :=
  if String.eqb s "" then fallback else s.

(** [displayPhoto(photo, albums)], lines 76-116. *)
Definition displayPhoto (photo albums : value) : M unit :=
  if negb (truthy photo) then console_log "No photo to display"
  else
    (filename <- lift (get_field photo "filename") ;;
     l1 <- lift (concat "Filename: " (js_or filename (Some (JStr "")))) ;;
     console_log l1 ;;
     title <- lift (get_field photo "title") ;;
     l2 <- lift (concat "Title: " (js_or title (Some (JStr "")))) ;;
     console_log l2 ;;
     date <- lift (get_field photo "date") ;;
     d <- formatDate date ;;
     console_log ("Date: " +:+ d) ;;
     pa <- lift (get_field photo "albums") ;;
     albumNames <- lift (albumNamesOf (js_or pa (Some (JArr []))) albums) ;;
     albumStr <- lift (join_loop (Some (Z.of_nat (length albumNames)))
                         (fun i => Ret (default undefined (albumNames !! i))) ", ") ;;
     console_log ("Albums: " +:+ or_text albumStr "None") ;;
     pt <- lift (get_field photo "tags") ;;
     let tags := js_or pt (Some (JArr [])) in
     tlen <- lift (get_length tags) ;;
     tbound <- lift (to_bound tlen) ;;
     tagStr <- lift (join_loop tbound (get_index tags) ", ") ;;
     console_log ("Tags: " +:+ or_text tagStr "None"))%io.

(** [findPhotoFeature], lines 123-142. *)
Definition findPhotoFeature : M unit :=
  (idInput <- prompt "Photo ID? " ;;
   match Str.parseInt idInput with
   | None => console_log "Invalid ID"
   | Some id =>
       photos <- readJson PHOTOS_FILE ;;
       albums <- readJson ALBUMS_FILE ;;
       if negb (truthy (Some photos)) || negb (truthy (Some albums))
       then console_log "Could not load data files"
       else
         photo <- lift (findPhotoById (Some photos) id) ;;
         if negb (truthy photo) then console_log "Photo not found"
         else displayPhoto photo (Some albums)
   end)%io.

(** [updatePhotoDetailsFeature], lines 149-185.  [photo] is the object held
    at [photos[index]], so that the assignments to its members change the
    collection that is written. *)
Definition updatePhotoDetailsFeature : M unit :=
  (idInput <- prompt "Photo ID? " ;;
   match Str.parseInt idInput with
   | None => console_log "Invalid ID"
   | Some id =>
       photos <- readJson PHOTOS_FILE ;;
       if negb (truthy (Some photos)) then console_log "Could not load photos"
       else
         index <- lift (indexOfId (Some photos) id) ;;
         match index with
         | None => console_log "Photo not found"
         | Some index =>
             at_index <- lift (get_index (Some photos) index) ;;
             console_log "Press enter to reuse existing value." ;;
             match at_index with
             | None => lift (Exn (cannot_read "undefined" "title"))
             | Some photo =>
                 title <- lift (get_field (Some photo) "title") ;;
                 q1 <- lift (concat "Enter value for title [" (js_or title (Some (JStr "")))) ;;
                 newTitle <- prompt (q1 +:+ "]: ") ;;
                 let photo :=
                   if negb (String.eqb (Str.trim newTitle) "")
                   then set_field photo "title" (JStr newTitle) else photo in
                 description <- lift (get_field (Some photo) "description") ;;
                 q2 <- lift (concat "Enter value for description ["
                               (js_or description (Some (JStr "")))) ;;
                 newDesc <- prompt (q2 +:+ "]: ") ;;
                 let photo :=
                   if negb (String.eqb (Str.trim newDesc) "")
                   then set_field photo "description" (JStr newDesc) else photo in
                 let photos := set_index photos index photo in
                 writeJson PHOTOS_FILE photos ;;
                 console_log "Photo updated"
             end
         end
   end)%io.

(** The search for [foundAlbum] in lines 204-210; [requested] is
    [albumNameInput.trim().toLowerCase()], and the answer is [null] or the
    album. *)
Definition findAlbum (albums : value) (requested : string) : res value :=
  (len <- get_length albums ;;
   bound <- to_bound len ;;
   found <- for_res
              (fun i (_ : option value) =>
                 a <- get_index albums i ;;
                 name <- get_field a "name" ;;
                 if truthy name then
                   match name with
                   | Some (JStr s) =>
                       Ret (if String.eqb (Str.toLowerCase s) requested
                            then Break (Some a) else Next None)
                   | _ => Exn (NotFunction "albums[i].name.toLowerCase")
                   end
                 else Ret (Next None))
              (iterations bound) 0 None ;;
   Ret (default null found))%res.

(** Lines 219-229: whether [foundAlbum.id] occurs in the [albums] of [p]. *)
Definition belongsTo (p foundAlbum : value) : res bool :=
  (pa <- get_field p "albums" ;;
   let pAlbums := js_or pa (Some (JArr [])) in
   len <- get_length pAlbums ;;
   bound <- to_bound len ;;
   for_res
     (fun j (_ : bool) =>
        x <- get_index pAlbums j ;;
        aid <- get_field foundAlbum "id" ;;
        Ret (if strict_eq x aid then Break true else Next false))
     (iterations bound) 0 false)%res.

(** Lines 231-236. *)
Definition resolutionOf (p : value) : res value :=
  (r <- get_field p "resolution" ;;
   if isArray r then
     w <- get_index r 0 ;;
     sw <- String_ w ;;
     h <- get_index r 1 ;;
     sh <- String_ h ;;
     Ret (Some (JStr (sw +:+ "x" +:+ sh)))
   else Ret (js_or r (Some (JStr ""))))%res.

(** Lines 219-245, the round of the photo [p]: its line, if it belongs. *)
Definition albumRow (p foundAlbum : value) : res (option string) :=
  (belongs <- belongsTo p foundAlbum ;;
   if negb belongs then Ret None
   else
     resolution <- resolutionOf p ;;
     pt <- get_field p "tags" ;;
     let tags := js_or pt (Some (JArr [])) in
     tlen <- get_length tags ;;
     tbound <- to_bound tlen ;;
     tagLine <- join_loop tbound (get_index tags) ":" ;;
     filename <- get_field p "filename" ;;
     s1 <- String_ filename ;;
     s2 <- concat (s1 +:+ ",") resolution ;;
     Ret (Some (s2 +:+ "," +:+ tagLine)))%res.

(** [albumPhotoListFeature], lines 192-247. *)
Definition albumPhotoListFeature : M unit :=
  (albumNameInput <- prompt "What is the name of the album? " ;;
   if String.eqb (Str.trim albumNameInput) "" then console_log "Album name required"
   else
     albums <- readJson ALBUMS_FILE ;;
     photos <- readJson PHOTOS_FILE ;;
     if negb (truthy (Some albums)) || negb (truthy (Some photos))
     then console_log "Could not load data"
     else
       foundAlbum <- lift (findAlbum (Some albums)
                             (Str.toLowerCase (Str.trim albumNameInput))) ;;
       if negb (truthy foundAlbum) then console_log "Album not found"
       else
         console_log "filename,resolution,tags" ;;
         len <- lift (get_length (Some photos)) ;;
         bound <- lift (to_bound len) ;;
         for_io
           (fun i (_ : unit) =>
              p <- lift (get_index (Some photos) i) ;;
              row <- lift (albumRow p foundAlbum) ;;
              match row with
              | Some line => console_log line ;; ret (Next tt)
              | None => ret (Next tt)
              end)
           (iterations bound) 0 tt)%io.

(** Lines 284-290: whether a tag of the photo is [tagToAdd] up to case. *)
Definition isDuplicate (tags : value) (tagToAdd : string) : res bool :=
  (len <- get_length tags ;;
   bound <- to_bound len ;;
   for_res
     (fun i (_ : bool) =>
        x <- get_index tags i ;;
        s <- String_ x ;;
        Ret (if String.eqb (Str.toLowerCase s) (Str.toLowerCase tagToAdd)
             then Break true else Next false))
     (iterations bound) 0 false)%res.

(** [tags.push(tagToAdd)]: only an array has the method. *)
Definition push (tags : value) (tagToAdd : string) : res json :=
  match tags with
  | Some (JArr l) => Ret (JArr (l ++ [JStr tagToAdd]))
  | _ => Exn (NotFunction "tags.push")
  end.

(** [tagPhotoFeature], lines 254-299. *)
Definition tagPhotoFeature : M unit :=
  (idInput <- prompt "What photo ID to tag? " ;;
   match Str.parseInt idInput with
   | None => console_log "Invalid ID"
   | Some id =>
       tagInput <- prompt "What tag to add (single tag)? " ;;
       if String.eqb (Str.trim tagInput) "" then console_log "Tag cannot be empty"
       else
         let tagToAdd := Str.trim tagInput in
         photos <- readJson PHOTOS_FILE ;;
         if negb (truthy (Some photos)) then console_log "Could not load photos"
         else
           index <- lift (indexOfId (Some photos) id) ;;
           match index with
           | None => console_log "Photo not found"
           | Some index =>
               photo <- lift (get_index (Some photos) index) ;;
               pt <- lift (get_field photo "tags") ;;
               let tags := js_or pt (Some (JArr [])) in
               duplicate <- lift (isDuplicate tags tagToAdd) ;;
               if duplicate then console_log "Tag already exists, no changes made"
               else
                 tags <- lift (push tags tagToAdd) ;;
                 match photo with
                 | None => lift (Exn (cannot_read "undefined" "tags"))
                 | Some photo =>
                     let photos := set_index photos index (set_field photo "tags" tags) in
                     writeJson PHOTOS_FILE photos ;;
                     console_log "Updated!"
                 end
           end
   end)%io.

(** The menu printed at every round, lines 309-314. *)
Definition menu : M unit :=
  (console_log "" ;;
   console_log "1. Find Photo" ;;
   console_log "2. Update Photo Details" ;;
   console_log "3. Album Photo List" ;;
   console_log "4. Tag Photo" ;;
   console_log "5. Exit")%io.

(** The [while (true)] of lines 308-330.  Every round reads a line, so the
    rounds are bounded by the lines left to read; [fuel] counts them. *)
Fixpoint menuLoop (fuel : nat) : M unit :=
  match fuel with
  | O => lift (Stop AwaitInput)
  | S fuel' =>
      (menu ;;
       answer <- prompt "Your selection> " ;;
       let selection := Str.trim answer in
       if String.eqb selection "1" then findPhotoFeature ;; menuLoop fuel'
       else if String.eqb selection "2" then updatePhotoDetailsFeature ;; menuLoop fuel'
       else if String.eqb selection "3" then albumPhotoListFeature ;; menuLoop fuel'
       else if String.eqb selection "4" then tagPhotoFeature ;; menuLoop fuel'
       else if String.eqb selection "5" then console_log "Goodbye"
       else console_log "Invalid selection" ;; menuLoop fuel')%io
  end.

(** [try { ... } catch (err) { ... }] *)
Definition try_catch {A} (body : M A) (handler : error -> M A) : M A :=
  fun w =>
    match body w with
    | (Exn e, w') => handler e w'
    | r => r
    end.

(** [main], lines 305-334.  The message of an exception of this program is
    never empty, so that the handler prints [err.message]. *)
Definition main : M unit :=
  fun w =>
    try_catch
      (console_log "Digital Media Catalog - INFS3201" ;;
       menuLoop (S (length (stdin w))))%io
      (fun err => console_log ("Unexpected error " +:+ message err))
      w.


(** * Specification vocabulary *)

(** What a loop whose body first reads [x[i]] computes when [x] is an
    array: its elements are visited from left to right. *)
Fixpoint fold_res {St} (f : nat -> value -> St -> res (step St))
    (i : nat) (l : list json) (s : St) : res St :=
  match l with
  | [] => Ret s
  | x :: l' =>
      (r <- f i (Some x) s ;;
       match r with
       | Next s' => fold_res f (S i) l' s'
       | Break s' => Ret s'
       end)%res
  end.

(** *** Identifiers as they are typed *)

Definition decimal_digit (c : ascii) : bool :=
  let n := nat_of_ascii c in ((48 <=? n) && (n <=? 57))%nat.

(** The white space that may precede a number: the space, the tabs, the
    line and page breaks, and the no-break space. *)
Definition blank (c : ascii) : bool :=
  existsb (Ascii.eqb c) [" "; "009"; "010"; "011"; "012"; "013"; "160"]%char.

Fixpoint skip_blanks (s : string) : string :=
  match s with
  | EmptyString => EmptyString
  | String c r => if blank c then skip_blanks r else s
  end.

Definition unsigned (s : string) : string :=
  match s with
  | String c r => if Ascii.eqb c "-" || Ascii.eqb c "+" then r else s
  | EmptyString => s
  end.

(** The text is numeric as the claim C6 reads the word: blanks around it
    apart, it is a sign, if any, and then digits only, one at least. *)
Definition integer_text (s : string) : bool :=
  let body := unsigned (Str.trim s) in
  negb (String.eqb body "") && forallb decimal_digit (list_ascii_of_string body).

(** The text starts with a number: after its leading blanks and one sign,
    if any, comes a digit.  What follows the digits is free. *)
Definition starts_number (s : string) : bool :=
  match unsigned (skip_blanks s) with
  | String c _ => decimal_digit c
  | EmptyString => false
  end.

(** The photo [p] is an object whose own [id] is the number [id]. *)
Definition has_id (id : Z) (p : json) : bool :=
  match p with
  | JObj m => match assoc "id" m with Some (JNum n) => n =? id | _ => false end
  | _ => false
  end.


(** The left-to-right scan both searches perform: [k] builds the answer
    from the position and the photo found. *)
Fixpoint scan {B} (k : nat -> json -> B) (id : Z) (i : nat) (l : list json)
  : res (option B) :=
  match l with
  | [] => Ret None
  | JNull :: _ => Exn (cannot_read "null" "id")
  | p :: l' => if has_id id p then Ret (Some (k i p)) else scan k id (S i) l'
  end.


(** An element the scan passes over: neither [null] nor the photo looked
    for. *)
Definition clean (id : Z) (q : json) : Prop := q <> JNull /\ has_id id q = false.


(** The album [a] answers the request: its own [name] is a non-empty text
    that, lowercased, is the requested text.  The stored name is compared as
    it is stored; only the request has been trimmed. *)
Definition matches_name (requested : string) (a : json) : bool :=
  match a with
  | JObj m =>
      match assoc "name" m with
      | Some (JStr s) =>
          negb (String.eqb s "") && String.eqb (Str.toLowerCase s) requested
      | _ => false
      end
  | _ => false
  end.

(** An element of the album collection the lookup can inspect: it is not
    [null], and its [name] is a text when it is not absent, [null], [false]
    or [0]. *)
Definition album_ok (a : json) : bool :=
  match a with
  | JNull => false
  | JObj m =>
      match assoc "name" m with
      | Some (JStr _) => true
      | name => negb (truthy name)
      end
  | _ => true
  end.

(** What the claim C2 asks of a stored name: equality after trimming and
    lowercasing both sides. *)
Definition trimmed_match (stored requested : string) : bool :=
  String.eqb (Str.toLowerCase (Str.trim stored)) (Str.toLowerCase (Str.trim requested)).

(** ** Rounds of the menu *)

(** The operation a selection runs, if it names one. *)
Definition dispatch (selection : string) : option (M unit) :=
  if String.eqb selection "1" then Some findPhotoFeature
  else if String.eqb selection "2" then Some updatePhotoDetailsFeature
  else if String.eqb selection "3" then Some albumPhotoListFeature
  else if String.eqb selection "4" then Some tagPhotoFeature
  else None.

Definition logged (w : world) (evs : list event) : world :=
  World (stdin w) (files w) (fault w) (host_date w) (trace w ++ evs).

(** The world once the menu has been printed and the selection read, the
    lines [rest] being still to read. *)
Definition asked (w : world) (rest : list string) : world :=
  World rest (files w) (fault w) (host_date w)
        (trace w ++ [Out ""; Out "1. Find Photo"; Out "2. Update Photo Details";
                     Out "3. Album Photo List"; Out "4. Tag Photo"; Out "5. Exit";
                     Ask "Your selection> "]).

(** One round of the menu that ends normally and is followed by another:
    an operation that returns, or a selection that is refused. *)
Inductive round (w w' : world) : Prop :=
  | round_operation (answer : string) (rest : list string) (op : M unit) :
      stdin w = answer :: rest ->
      dispatch (Str.trim answer) = Some op ->
      op (asked w rest) = (Ret tt, w') ->
      round w w'
  | round_refused (answer : string) (rest : list string) :
      stdin w = answer :: rest ->
      dispatch (Str.trim answer) = None ->
      Str.trim answer <> "5" ->
      w' = logged (asked w rest) [Out "Invalid selection"] ->
      round w w'.

(** The operation [m] reads lines and never puts one back. *)
Definition shrinks {A} (m : M A) : Prop :=
  forall w r w', m w = (r, w') -> (length (stdin w') <= length (stdin w))%nat.

(** ** Sample catalogs *)

Module Sample.
Definition photo1 : json :=
  JObj [("id", JNum 1); ("filename", JStr "a.jpg"); ("title", JStr "A");
        ("tags", JArr [JStr "x"]); ("albums", JArr [JNum 10])].
Definition photo2 : json :=
  JObj [("id", JNum 2); ("filename", JStr "b.jpg");
        ("resolution", JArr [JNum 640; JNum 480]);
        ("albums", JArr [JNum 11; JNum 10])].
Definition trip : json := JObj [("id", JNum 10); ("name", JStr "Trip")].

Definition catalog (photos : json) : gmap string file :=
  <[PHOTOS_FILE := Content photos]> (<[ALBUMS_FILE := Content (JArr [trip])]> ∅).

Definition no_fault : string -> option string := fun _ => None.
Definition read_only : string -> option string :=
  fun _ => Some "EACCES: permission denied".
Definition no_date : json -> res (option string) := fun _ => Ret None.

(** A session on a sound catalog, the same on files that cannot be
    written, and one on a photo file that holds [[null]]. *)
Definition sound (keys : list string) : world :=
  World keys (catalog (JArr [photo1; photo2])) no_fault no_date [].
Definition locked (keys : list string) : world :=
  World keys (catalog (JArr [photo1; photo2])) read_only no_date [].
Definition broken (keys : list string) : world :=
  World keys (catalog (JArr [JNull])) no_fault no_date [].
End Sample.

(** ** Update Photo Details and Tag Photo: what a run changes *)

(** The current value of a field as a question shows it between brackets:
    [photo.title || ''] converted to a string. *)
Definition shown (v : value) : res string := String_ (js_or v (Some (JStr ""))).

(** The photo after an answer to the question about the field [k], as
    lines 175-177 and 179-181 change it. *)
Definition edited (k answer : string) (photo : json) : json :=
  if negb (String.eqb (Str.trim answer) "")
  then set_field photo k (JStr answer) else photo.

(** The members of a photo after an answer to the question about the field
    [k]: a blank answer keeps them, any other is stored as it was typed. *)
Definition answered (k answer : string) (m : list (string * json))
  : list (string * json) :=
  if String.eqb (Str.trim answer) "" then m else assoc_set k (JStr answer) m.

(** The events of a save of [data], and of the confirmation that follows
    it, under the fault [flt] of the file system. *)
Definition saved (flt : string -> option string) (data : json) (confirmation : string)
  : list event :=
  match flt PHOTOS_FILE with
  | None => [Save PHOTOS_FILE data; Out confirmation]
  | Some msg =>
      [Save PHOTOS_FILE data;
       Out ("Error writing file " +:+ PHOTOS_FILE +:+ " - " +:+ msg);
       Out confirmation]
  end.

(** The files after that save. *)
Definition stored (flt : string -> option string) (data : json) (fs : gmap string file)
  : gmap string file :=
  match flt PHOTOS_FILE with
  | None => <[PHOTOS_FILE := Content data]> fs
  | Some _ => fs
  end.


(** The tag [x] of a photo, as a text, differs from [tag] even up to case. *)
Definition differs (tag : string) (x : json) : Prop :=
  exists s, to_string x = Ret s /\ Str.toLowerCase s <> Str.toLowerCase tag.

(** The same world, on a file system whose writes succeed. *)
Definition without_fault (w : world) : world :=
  World (stdin w) (files w) (fun _ => None) (host_date w) (trace w).

(** ** Album Photo List: the lines of a collection *)

(** As [fold_res], for a body that prints. *)
Fixpoint fold_io {St} (f : nat -> value -> St -> M (step St))
    (i : nat) (l : list json) (s : St) : M St :=
  match l with
  | [] => ret s
  | x :: l' =>
      (r <- f i (Some x) s ;;
       match r with
       | Next s' => fold_io f (S i) l' s'
       | Break s' => ret s'
       end)%io
  end.

Definition member (k : string) (p : json) : value :=
  match p with
  | JObj m => assoc k m
  | _ => undefined
  end.

(** A sequence that may be absent, in which case it is empty. *)
Definition sequence (v : value) : list json :=
  match v with
  | Some (JArr l) => l
  | _ => []
  end.

Definition text (x : json) : option string :=
  match x with
  | JStr s => Some s
  | _ => None
  end.

Definition tag_texts (p : json) : list string := omap text (sequence (member "tags" p)).

Definition filename_text (p : json) : string :=
  match member "filename" p with
  | Some (JStr s) => s
  | _ => ""
  end.

(** An integer as it is written in decimal. *)
Definition written (n : Z) : string := NilEmpty.string_of_int (Z.to_int n).

(** The resolution of a photo as the listing shows it: a text as it is, a
    pair of numbers written in decimal and joined by an [x], nothing when
    absent. *)
Definition resolution_text (p : json) : string :=
  match member "resolution" p with
  | Some (JStr s) => s
  | Some (JArr [JNum w; JNum h]) => written w +:+ "x" +:+ written h
  | _ => ""
  end.

(** The sizes of a resolution given as a pair are integers below [2 ^ 53],
    which a double holds digit for digit. *)
Definition sized (p : json) : bool :=
  match member "resolution" p with
  | Some (JArr [JNum w; JNum h]) => (Z.abs w <? 2 ^ 53) && (Z.abs h <? 2 ^ 53)
  | _ => true
  end.

(** The [albums] of the photo [p] contain the number [aid]. *)
Definition in_album (aid : Z) (p : json) : bool :=
  existsb (fun x => match x with JNum n => n =? aid | _ => false end)
          (sequence (member "albums" p)).

(** The line of a photo: [<filename>,<resolution>,<tags>], the tags joined
    by colons. *)
Definition row (p : json) : string :=
  filename_text p +:+ "," +:+ resolution_text p +:+ "," +:+ String.concat ":" (tag_texts p).

(** A photo as the data model has it: an object whose [filename] is a
    text, whose [albums] are absent or an array, whose [tags] are absent or
    an array of texts, and whose [resolution] is absent, a text or a pair of
    numbers. *)
Definition photo_ok (p : json) : bool :=
  match p with
  | JObj m =>
      match assoc "filename" m with Some (JStr _) => true | _ => false end
      && match assoc "albums" m with None | Some (JArr _) => true | _ => false end
      && match assoc "tags" m with
         | None => true
         | Some (JArr l) => forallb (fun x => bool_decide (is_Some (text x))) l
         | _ => false
         end
      && match assoc "resolution" m with
         | None | Some (JStr _) | Some (JArr [JNum _; JNum _]) => true
         | _ => false
         end
  | _ => false
  end.

(** * Further vocabulary *)

(** ** Storage access *)

(** What [readJson] answers on the files [fs], and the events of the read:
    the load, then the diagnostic of a file that is missing or is not JSON. *)
Definition loaded (fs : gmap string file) (path : string) : json :=
  match fs !! path with
  | Some (Content v) => v
  | _ => JNull
  end.

Definition load_events (fs : gmap string file) (path : string) : list event :=
  match fs !! path with
  | Some (Content _) => [Load path]
  | Some (Corrupt msg) =>
      [Load path; Out ("Error reading file " +:+ path +:+ " - " +:+ msg)]
  | None =>
      [Load path; Out ("Error reading file " +:+ path +:+ " - " +:+ enoent path)]
  end.

(** ** What an operation writes *)

(** The saves among some events, in their order. *)
Definition writes (evs : list event) : list (string * json) :=
  omap (fun e => match e with Save p d => Some (p, d) | _ => None end) evs.

(** From [w] to [w'] nothing was saved: the files, the faults and the host
    are the same, and the events added hold no save. *)
Definition unchanged (w w' : world) : Prop :=
  files w' = files w /\ fault w' = fault w /\ host_date w' = host_date w /\
  exists evs, trace w' = trace w ++ evs /\ writes evs = [].

(** The operation [m] saves nothing, whatever its outcome. *)
Definition quiet {A} (m : M A) : Prop :=
  forall w r w', m w = (r, w') -> unchanged w w'.

(** The operation [m] saves at most once: either it has saved nothing, or
    it has returned after one save, of the photo file, followed by its
    confirmation. *)
Definition saves_once (confirmation : string) (m : M unit) : Prop :=
  forall w r w',
    m w = (r, w') ->
    fault w' = fault w /\ host_date w' = host_date w /\
    exists evs,
      trace w' = trace w ++ evs /\
      ((writes evs = [] /\ files w' = files w) \/
       (r = Ret tt /\ last evs = Some (Out confirmation) /\
        exists data,
          writes evs = [(PHOTOS_FILE, data)] /\
          files w' = stored (fault w) data (files w))).

(** The operation [m] leaves the file at [path] as it is. *)
Definition keeps {A} (path : string) (m : M A) : Prop :=
  forall w r w', m w = (r, w') -> files w' !! path = files w !! path.

(** ** Find Photo: what is displayed *)

(** An album as the data model has it: an object whose [name] is a text. *)
Definition album_named (a : json) : bool :=
  match a with
  | JObj m => match assoc "name" m with Some (JStr _) => true | _ => false end
  | _ => false
  end.

Definition name_text (a : json) : option string :=
  match member "name" a with
  | Some (JStr s) => Some s
  | _ => None
  end.

(** The names of the albums with the identifiers [ids], in the order of
    [ids]: for each, the first album with that [id] counts, and an
    identifier that no album has gives no name. *)
Definition album_names (albums ids : list json) : list string :=
  omap (fun x =>
          a ← find (fun a => strict_eq (member "id" a) (Some x)) albums; name_text a)
       ids.

(** The date line of a timestamp, when the host's [Date] gives one. *)
Definition date_text (hd : json -> res (option string)) (timestamp : value)
  : option string :=
  match timestamp with
  | None | Some JNull => Some "Unknown"
  | Some t =>
      match hd t with
      | Ret d => Some (default "Invalid date" d)
      | _ => None
      end
  end.

(** The five lines of [displayPhoto]. *)
Definition display_lines (albums : list json) (p : json) (title date : string)
  : list event :=
  [Out ("Filename: " +:+ filename_text p);
   Out ("Title: " +:+ title);
   Out ("Date: " +:+ date);
   Out ("Albums: " +:+
        or_text (String.concat ", " (album_names albums (sequence (member "albums" p))))
                "None");
   Out ("Tags: " +:+ or_text (String.concat ", " (tag_texts p)) "None")].

(** ** What a session may change in a photo *)

(** The tags of the photo [p] are tidy: absent or an array of texts, no two
    of them equal up to case. *)
Definition tidy (p : json) : bool :=
  match member "tags" p with
  | None => true
  | Some (JArr l) => forallb (fun x => bool_decide (is_Some (text x))) l
  | _ => false
  end
  && bool_decide (NoDup (Str.toLowerCase <$> tag_texts p)).

(** The photo [p'] is [p] retouched: the same value, or an object that
    differs from the object [p] in its [title], [description] and [tags]
    at most, whose tags begin with those of [p] and are tidy if those of
    [p] were. *)
Inductive retouched : json -> json -> Prop :=
| retouched_same (p : json) : retouched p p
| retouched_members (m m' : list (string * json)) :
    (forall k, k <> "title" -> k <> "description" -> k <> "tags" ->
               assoc k m' = assoc k m) ->
    sequence (assoc "tags" m) `prefix_of` sequence (assoc "tags" m') ->
    (tidy (JObj m) = true -> tidy (JObj m') = true) ->
    retouched (JObj m) (JObj m').

(** The operation [m] retouches the photos: on a photo file that holds an
    array it leaves an array of the same photos, retouched, in the same
    order. *)
Definition retouches {A} (m : M A) : Prop :=
  forall w r w' l,
    m w = (r, w') ->
    files w !! PHOTOS_FILE = Some (Content (JArr l)) ->
    exists l', files w' !! PHOTOS_FILE = Some (Content (JArr l')) /\ Forall2 retouched l l'.
(** * Properties *)

(** ** Strings and messages *)

Example trim_spaces : Str.trim " Summer " = "Summer".
Proof. reflexivity. Qed.

Example lower_mixed : Str.toLowerCase "BeAch 9" = "beach 9".
Proof. reflexivity. Qed.

Example parseInt_prefix : Str.parseInt "  12abc" = Some 12.
Proof. reflexivity. Qed.

Example parseInt_negative : Str.parseInt "-7" = Some (-7).
Proof. reflexivity. Qed.

Example parseInt_nan : Str.parseInt "abc" = None /\ Str.parseInt "" = None.
Proof. split; reflexivity. Qed.

(** Above [2 ^ 53] the number read is the nearest double. *)
Example parseInt_rounds :
  Str.parseInt "9007199254740993" = Some 9007199254740992 /\
  Str.parseInt "-9007199254740995" = Some (-9007199254740996).
Proof. split; vm_compute; reflexivity. Qed.

Example of_Z_digits :
  Str.of_Z 640 = "640" /\ Str.of_Z (-12) = "-12" /\ Str.of_Z 0 = "0" /\
  Str.of_Z (2 ^ 53) = "9007199254740992" /\
  Str.of_Z (2 ^ 60) = "1152921504606847000" /\
  Str.of_Z (10 ^ 21) = "1e+21" /\
  Str.of_Z (2 ^ 70) = "1.1805916207174113e+21".
Proof. repeat split; vm_compute; reflexivity. Qed.

Example toNumber_texts :
  Str.toNumber " 12 " = Str.Int 12 /\ Str.toNumber "" = Str.Int 0 /\
  Str.toNumber "-7" = Str.Int (-7) /\ Str.toNumber "1e3" = Str.Int 1000 /\
  Str.toNumber "20e-1" = Str.Int 2 /\ Str.toNumber "0x1F" = Str.Int 31 /\
  Str.toNumber "12abc" = Str.NaN /\ Str.toNumber "-0x10" = Str.NaN /\
  Str.toNumber "1,2" = Str.NaN /\ Str.toNumber "1.5" = Str.Fraction 2 /\
  Str.toNumber "-1.5" = Str.Fraction (-1) /\
  Str.toNumber "0.99999999999999999999" = Str.Int 1.
Proof. repeat split; vm_compute; reflexivity. Qed.

(** A length that is not a number is converted to one. *)
Example to_bound_converts :
  to_bound (Some (JStr "2")) = Ret (Some 2) /\
  to_bound (Some (JArr [JNum 3])) = Ret (Some 3) /\
  to_bound (Some (JArr [])) = Ret (Some 0) /\
  to_bound (Some (JObj [])) = Ret None /\
  to_bound (Some (JStr "many")) = Ret None /\
  to_bound (Some (JStr "1.5")) = Ret (Some 2) /\
  to_bound (Some (JStr "Infinity")) = Stop Unmodelled.
Proof. repeat split; vm_compute; reflexivity. Qed.

Example to_string_nested :
  to_string (JArr [JNum 1; JNull; JArr [JStr "a"; JBool true]]) = Ret "1,,a,true".
Proof. reflexivity. Qed.

Example to_string_shadowed :
  to_string (JObj [("toString", JNum 1)]) = Exn no_primitive.
Proof. reflexivity. Qed.


Lemma message_nonempty (e : error) : message e <> "".
Proof. destruct e as [what k| callee |]; simpl; try discriminate.
  destruct callee; discriminate. Qed.

Lemma digits_acc_some (s : string) (a : Z) : exists n, Str.digits (Some a) s = Some n.
Proof.
  revert a. induction s as [|c r IH]; intros a; simpl; [eauto|].
  destruct (Str.digit c); eauto.
Qed.

(** [parseInt] answers [NaN] exactly when, white space and one sign
    skipped, the text does not begin with a digit. *)
Lemma digits_none (s : string) :
  Str.digits None s = None <->
  match s with EmptyString => True | String c _ => Str.digit c = None end.
Proof.
  destruct s as [|c r]; simpl; [tauto|].
  destruct (Str.digit c) as [d|] eqn:E; [|tauto].
  split; [|discriminate]. intros H.
  destruct (digits_acc_some r (10 * 0 + d)) as [n Hn]. simpl in *. congruence.
Qed.

Lemma blank_is_space (c : ascii) : blank c = Str.is_space c.
Proof. destruct c as [[] [] [] [] [] [] [] []]; reflexivity. Qed.

Lemma decimal_digit_digit (c : ascii) : decimal_digit c = false <-> Str.digit c = None.
Proof. destruct c as [[] [] [] [] [] [] [] []]; cbv; split; congruence. Qed.

Lemma skip_blanks_trimStart (s : string) : skip_blanks s = Str.trimStart s.
Proof.
  induction s as [|c r IH]; [reflexivity|]. cbn [skip_blanks Str.trimStart].
  rewrite blank_is_space, IH. reflexivity.
Qed.

Lemma digits_starts (s : string) :
  Str.digits None s = None <->
  match s with String c _ => decimal_digit c | EmptyString => false end = false.
Proof.
  rewrite digits_none. destruct s as [|c r]; [tauto|].
  symmetry. apply decimal_digit_digit.
Qed.

(** [parseInt] answers [NaN] exactly for the texts that do not start with a
    number. *)
Lemma parseInt_starts_number (s : string) :
  Str.parseInt s = None <-> starts_number s = false.
Proof.
  unfold Str.parseInt, starts_number. rewrite skip_blanks_trimStart.
  destruct (Str.trimStart s) as [|c r]; [cbn; tauto|].
  destruct (Ascii.eqb_spec c "-") as [->|Hminus];
    [|destruct (Ascii.eqb_spec c "+") as [->|Hplus]].
  - cbn [unsigned Ascii.eqb Bool.eqb orb andb]. rewrite fmap_None. apply digits_starts.
  - cbn [unsigned Ascii.eqb Bool.eqb orb andb]. rewrite fmap_None. apply digits_starts.
  - assert (Hsame : unsigned (String c r) = String c r).
    { cbn [unsigned]. apply Ascii.eqb_neq in Hminus, Hplus.
      rewrite Hminus, Hplus. reflexivity. }
    rewrite Hsame, <- (digits_starts (String c r)),
      <- (fmap_None Str.double (Str.digits None (String c r))).
    destruct c as [[] [] [] [] [] [] [] []]; try tauto; congruence.
Qed.

(** ** Loops over an array *)

Section Loops.
Context {St : Type}.
Variable f : nat -> value -> St -> res (step St).

Lemma for_res_suffix (pre l : list json) (s : St) :
  for_res (fun i s => p <- get_index (Some (JArr (pre ++ l))) i ;; f i p s)%res
          (length l) (length pre) s
  = fold_res f (length pre) l s.
Proof.
  revert pre s. induction l as [|x l IH]; intros pre s; [reflexivity|].
  cbn [for_res fold_res length get_index res_bind].
  rewrite list_lookup_middle by reflexivity.
  destruct (f (length pre) (Some x) s) as [[s'|s']|e|st]; cbn [res_bind]; try reflexivity.
  specialize (IH (pre ++ [x]) s').
  rewrite <- app_assoc, length_app in IH. cbn [app length] in IH.
  rewrite Nat.add_1_r in IH. exact IH.
Qed.

Lemma for_res_array (l : list json) (s : St) :
  for_res (fun i s => p <- get_index (Some (JArr l)) i ;; f i p s)%res
          (length l) 0 s
  = fold_res f 0 l s.
Proof. exact (for_res_suffix [] l s). Qed.
End Loops.

Lemma iterations_length (n : nat) : iterations (Some (Z.of_nat n)) = n.
Proof. apply Nat2Z.id. Qed.

(** ** Catalog lookup by identifier *)

Lemma has_id_strict_eq (id : Z) (p : json) :
  p <> JNull ->
  (pid <- get_field (Some p) "id" ;; Ret (strict_eq pid (Some (JNum id))))%res
  = Ret (has_id id p).
Proof.
  intros Hp. destruct p; try reflexivity. congruence.
Qed.

Lemma fold_scan {B} (k : nat -> json -> B) (g : nat -> value -> B) (id : Z) :
  (forall i p, g i (Some p) = k i p) ->
  forall (l : list json) (i : nat),
  fold_res
    (fun i p (_ : option B) =>
       pid <- get_field p "id" ;;
       Ret (if strict_eq pid (Some (JNum id)) then Break (Some (g i p)) else Next None))%res
    i l None
  = scan k id i l.
Proof.
  intros Hg l. induction l as [|p l IH]; intros i; [reflexivity|].
  destruct p as [|b|n|s|items|m]; cbn [fold_res scan get_field res_bind has_id];
    try reflexivity; try apply IH.
  destruct (assoc "id" m) as [[|b|n|s|items|m']|]; cbn; try apply IH.
  destruct (n =? id); cbn; [rewrite Hg; reflexivity | apply IH].
Qed.

Lemma scan_found {B} (k : nat -> json -> B) (id : Z) (pre suf : list json) (p : json) :
  Forall (clean id) pre -> has_id id p = true ->
  forall i, scan k id i (pre ++ p :: suf) = Ret (Some (k (i + length pre)%nat p)).
Proof.
  intros Hpre Hp. induction Hpre as [|q pre [Hq Hid] _ IH]; intros i.
  - cbn. rewrite Hp, Nat.add_0_r. destruct p; first [discriminate Hp | reflexivity].
  - cbn [app scan]. rewrite Hid, IH. cbn [length].
    replace (S i + length pre)%nat with (i + S (length pre))%nat by lia.
    destruct q; congruence.
Qed.

Lemma scan_none {B} (k : nat -> json -> B) (id : Z) (l : list json) :
  Forall (clean id) l -> forall i, scan k id i l = Ret None.
Proof.
  intros Hl. induction Hl as [|q l [Hq Hid] _ IH]; intros i; [reflexivity|].
  cbn [scan]. rewrite Hid, IH. destruct q; congruence.
Qed.

Lemma scan_null {B} (k : nat -> json -> B) (id : Z) (pre suf : list json) :
  Forall (clean id) pre ->
  forall i, scan k id i (pre ++ JNull :: suf) = Exn (cannot_read "null" "id").
Proof.
  intros Hpre. induction Hpre as [|q pre [Hq Hid] _ IH]; intros i; [reflexivity|].
  cbn [app scan]. rewrite Hid, IH. destruct q; congruence.
Qed.

(** A scan that answers has met no [null], and stopped at the first
    photo with the identifier. *)
Lemma scan_inv {B} (k : nat -> json -> B) (id : Z) (l : list json) (i : nat) (b : B) :
  scan k id i l = Ret (Some b) ->
  exists pre p suf,
    l = pre ++ p :: suf /\ Forall (clean id) pre /\ has_id id p = true /\
    b = k (i + length pre)%nat p.
Proof.
  revert i. induction l as [|q l IH]; intros i H; [discriminate|].
  cbn [scan] in H.
  destruct (has_id id q) eqn:Hid.
  - exists [], q, l. cbn. rewrite Nat.add_0_r.
    destruct q; try discriminate Hid. injection H as <-. auto.
  - assert (Hq : q <> JNull) by (intros ->; discriminate H).
    assert (H' : scan k id (S i) l = Ret (Some b)) by (destruct q; congruence).
    destruct (IH _ H') as (pre & p & suf & -> & Hpre & Hp & ->).
    exists (q :: pre), p, suf. cbn [app length].
    repeat split; auto; [constructor; [split|]; auto | f_equal; lia].
Qed.

Lemma findPhotoById_scan (l : list json) (id : Z) :
  findPhotoById (Some (JArr l)) id
  = (r <- scan (fun _ p => Some p) id 0 l ;; Ret (default null r))%res.
Proof.
  unfold findPhotoById. cbn [isArray negb get_length to_bound res_bind].
  rewrite iterations_length.
  pose proof (for_res_array
    (fun i p (_ : option value) =>
       pid <- get_field p "id" ;;
       Ret (if strict_eq pid (Some (JNum id)) then Break (Some p) else Next None))%res
    l None) as H.
  cbv beta in H. rewrite H.
  rewrite (fold_scan (fun _ p => Some p) (fun _ p => p)); reflexivity.
Qed.

Lemma indexOfId_scan (l : list json) (id : Z) :
  indexOfId (Some (JArr l)) id = scan (fun i _ => i) id 0 l.
Proof.
  unfold indexOfId. cbn [get_length to_bound res_bind].
  rewrite iterations_length.
  pose proof (for_res_array
    (fun i p (_ : option nat) =>
       pid <- get_field p "id" ;;
       Ret (if strict_eq pid (Some (JNum id)) then Break (Some i) else Next None))%res
    l None) as H.
  cbv beta in H. rewrite H.
  rewrite (fold_scan (fun i _ => i) (fun i _ => i)); reflexivity.
Qed.

Lemma has_id_exact (id : Z) (m : list (string * json)) :
  has_id id (JObj m) = true <-> assoc "id" m = Some (JNum id).
Proof.
  cbn. destruct (assoc "id" m) as [[|b|n|s|items|m']|]; try (split; discriminate).
  rewrite Z.eqb_eq. split; congruence.
Qed.

(** C7, as the code has it.  [findPhotoById] answers [null] for every value
    that is not an array.  In an array it returns the first photo whose own
    [id] is the requested number, and [null] when there is none, as long as
    no element it has to inspect is [null]; at such an element the read of
    its [id] throws.  The comparison is exact, so an [id] held as a string
    never matches. *)
Theorem findPhotoById_spec (photos : value) (id : Z) :
  (isArray photos = false -> findPhotoById photos id = Ret null) /\
  (forall pre p suf,
     photos = Some (JArr (pre ++ p :: suf)) ->
     Forall (clean id) pre -> has_id id p = true ->
     findPhotoById photos id = Ret (Some p)) /\
  (forall l,
     photos = Some (JArr l) -> Forall (clean id) l ->
     findPhotoById photos id = Ret null) /\
  (forall pre suf,
     photos = Some (JArr (pre ++ JNull :: suf)) -> Forall (clean id) pre ->
     findPhotoById photos id = Exn (CannotRead "null" "id")) /\
  (forall m, has_id id (JObj m) = true <-> assoc "id" m = Some (JNum id)) /\
  (forall m s, assoc "id" m = Some (JStr s) -> has_id id (JObj m) = false).
Proof.
  repeat split.
  - intros H. unfold findPhotoById. rewrite H. reflexivity.
  - intros pre p suf -> Hpre Hp.
    rewrite findPhotoById_scan, (scan_found _ _ _ _ _ Hpre Hp). reflexivity.
  - intros l -> Hl. rewrite findPhotoById_scan, (scan_none _ _ _ Hl). reflexivity.
  - intros pre suf -> Hpre.
    rewrite findPhotoById_scan, (scan_null _ _ _ _ Hpre). reflexivity.
  - apply has_id_exact.
  - apply has_id_exact.
  - intros m s H. cbn. rewrite H. reflexivity.
Qed.

Lemma findPhotoById_spec_witness :
  let a := JObj [("id", JStr "7"); ("filename", JStr "a.jpg")] in
  let b := JObj [("id", JNum 7); ("filename", JStr "b.jpg")] in
  findPhotoById (Some (JArr [a; b; JNull])) 7 = Ret (Some b)
  /\ findPhotoById (Some (JObj [("id", JNum 7)])) 7 = Ret null.
Proof.
  intros a b. split.
  - apply (proj1 (proj2 (findPhotoById_spec (Some (JArr [a; b; JNull])) 7)) [a] b [JNull]).
    + reflexivity.
    + repeat constructor. discriminate.
    + reflexivity.
  - apply (proj1 (findPhotoById_spec (Some (JObj [("id", JNum 7)])) 7)). reflexivity.
Defined.

(** C7, as the claim words it, fails on an array that holds [null]: no
    photo matches, and the answer is a [TypeError], not [null]. *)
Lemma findPhotoById_throws_on_null :
  Forall (fun q => has_id 1 q = false) [JNull] /\
  findPhotoById (Some (JArr [JNull])) 1 = Exn (CannotRead "null" "id") /\
  findPhotoById (Some (JArr [JNull])) 1 <> Ret null.
Proof. repeat split; [repeat constructor | discriminate]. Qed.

(** ** Validation of the identifier *)

(** C6.  When the identifier typed does not start with a number, that is,
    when no digit follows its leading blanks and its sign, if it has one,
    Find Photo and Tag Photo print "Invalid ID" and return: the question and
    that line are the only events, no file is loaded or saved, and the files
    are as they were. *)
Theorem invalid_id_aborts (w : world) (idInput : string) (rest : list string) :
  stdin w = idInput :: rest ->
  starts_number idInput = false ->
  findPhotoFeature w
  = (Ret tt, World rest (files w) (fault w) (host_date w)
               (trace w ++ [Ask "Photo ID? "; Out "Invalid ID"]))
  /\
  tagPhotoFeature w
  = (Ret tt, World rest (files w) (fault w) (host_date w)
               (trace w ++ [Ask "What photo ID to tag? "; Out "Invalid ID"])).
Proof.
  intros Hin Hnan. apply parseInt_starts_number in Hnan.
  destruct w as [inp fs flt hd tr]. cbn in Hin. subst inp.
  unfold findPhotoFeature, tagPhotoFeature, bind, prompt. cbn [stdin].
  rewrite Hnan. unfold console_log, emit. cbn. rewrite <- !app_assoc.
  split; reflexivity.
Qed.

Lemma invalid_id_aborts_witness :
  let w := World [" -x1"; "5"] ∅ (fun _ => None) (fun _ => Ret None) [] in
  findPhotoFeature w
  = (Ret tt, World ["5"] ∅ (fault w) (host_date w) [Ask "Photo ID? "; Out "Invalid ID"])
  /\
  tagPhotoFeature w
  = (Ret tt, World ["5"] ∅ (fault w) (host_date w)
               [Ask "What photo ID to tag? "; Out "Invalid ID"]).
Proof.
  intros w. apply (invalid_id_aborts w " -x1" ["5"]); reflexivity.
Defined.

(** The claim C6 as it is written fails: the text [1abc] is not numeric,
    and yet Find Photo loads both files and displays the photo 1, and Tag
    Photo loads the photo file, saves it with the new tag and confirms. *)
Lemma non_numeric_id_accepted :
  integer_text "1abc" = false /\
  trace (snd (findPhotoFeature (Sample.sound ["1abc"])))
  = [Ask "Photo ID? "; Load PHOTOS_FILE; Load ALBUMS_FILE;
     Out "Filename: a.jpg"; Out "Title: A"; Out "Date: Unknown";
     Out "Albums: Trip"; Out "Tags: x"] /\
  trace (snd (tagPhotoFeature (Sample.sound ["1abc"; "sea"])))
  = [Ask "What photo ID to tag? "; Ask "What tag to add (single tag)? ";
     Load PHOTOS_FILE;
     Save PHOTOS_FILE
       (JArr [JObj [("id", JNum 1); ("filename", JStr "a.jpg"); ("title", JStr "A");
                    ("tags", JArr [JStr "x"; JStr "sea"]); ("albums", JArr [JNum 10])];
              Sample.photo2]);
     Out "Updated!"].
Proof. repeat split; vm_compute; reflexivity. Qed.

(** ** Catalog lookup by album name *)

Lemma fold_findAlbum (requested : string) (l : list json) :
  Forall (fun a => album_ok a = true) l ->
  forall i,
  fold_res
    (fun (_ : nat) a (_ : option value) =>
       name <- get_field a "name" ;;
       if truthy name then
         match name with
         | Some (JStr s) =>
             Ret (if String.eqb (Str.toLowerCase s) requested
                  then Break (Some a) else Next None)
         | _ => Exn (NotFunction "albums[i].name.toLowerCase")
         end
       else Ret (Next None))%res
    i l None
  = Ret (Some <$> find (matches_name requested) l).
Proof.
  intros Hl. induction Hl as [|a l Ha _ IH]; intros i; [reflexivity|].
  cbn [fold_res find].
  destruct a as [|b|n|s|items|m]; try discriminate Ha;
    cbn [get_field res_bind truthy matches_name]; try apply IH.
  cbn [album_ok] in Ha.
  destruct (assoc "name" m) as [[|b|n|s|items|m']|]; cbn [truthy] in *;
    try discriminate Ha; try apply IH.
  - destruct b; [discriminate Ha | apply IH].
  - destruct (n =? 0); [apply IH | discriminate Ha].
  - destruct (String.eqb s ""); cbn [negb andb]; [apply IH|].
    destruct (String.eqb (Str.toLowerCase s) requested); [reflexivity | apply IH].
Qed.

(** C2, as the code has it.  In a collection whose elements the lookup can
    inspect, the album found is the first whose stored name, lowercased but
    not trimmed, equals the request trimmed and lowercased, and the answer
    is [null] when there is none.  So [" Summer "] finds a stored
    ["summer"], and ["Summer2"] does not. *)
Theorem findAlbum_spec (l : list json) (albumNameInput : string) :
  Forall (fun a => album_ok a = true) l ->
  let requested := Str.toLowerCase (Str.trim albumNameInput) in
  findAlbum (Some (JArr l)) requested
  = Ret (match find (matches_name requested) l with
         | Some a => Some a
         | None => null
         end)
  /\ (forall m s, assoc "name" m = Some (JStr s) ->
        matches_name requested (JObj m) = true
        <-> s <> "" /\ Str.toLowerCase s = requested)
  /\ matches_name (Str.toLowerCase (Str.trim " Summer "))
       (JObj [("id", JNum 1); ("name", JStr "summer")]) = true
  /\ matches_name (Str.toLowerCase (Str.trim "Summer2"))
       (JObj [("id", JNum 1); ("name", JStr "summer")]) = false.
Proof.
  intros Hl requested. split; [|split; [|split; reflexivity]].
  - unfold findAlbum. cbn [get_length to_bound res_bind].
    rewrite iterations_length.
    pose proof (for_res_array
      (fun (_ : nat) a (_ : option value) =>
         name <- get_field a "name" ;;
         if truthy name then
           match name with
           | Some (JStr s) =>
               Ret (if String.eqb (Str.toLowerCase s) requested
                    then Break (Some a) else Next None)
           | _ => Exn (NotFunction "albums[i].name.toLowerCase")
           end
         else Ret (Next None))%res
      l None) as H.
    cbv beta in H. rewrite H, (fold_findAlbum requested l Hl). cbn [res_bind].
    destruct (find (matches_name requested) l); reflexivity.
  - intros m s H. cbn [matches_name]. rewrite H.
    rewrite andb_true_iff, negb_true_iff, String.eqb_neq, String.eqb_eq.
    reflexivity.
Qed.

Lemma findAlbum_spec_witness :
  let trip := JObj [("id", JNum 10); ("name", JStr "Trip")] in
  let summer := JObj [("id", JNum 11); ("name", JStr "Summer")] in
  findAlbum (Some (JArr [trip; JObj [("id", JNum 12)]; summer; summer]))
            (Str.toLowerCase (Str.trim "  SUMMER "))
  = Ret (Some summer).
Proof.
  intros trip summer.
  apply (proj1 (findAlbum_spec [trip; JObj [("id", JNum 12)]; summer; summer]
                  "  SUMMER " ltac:(repeat constructor))).
Defined.

(** C2, as the claim words it, fails on a stored name with a space around
    it: trimmed and lowercased, [" summer"] equals the request ["summer"],
    yet the lookup answers [null] and the operation prints "Album not
    found". *)
Lemma findAlbum_stored_name_untrimmed :
  let album := JObj [("id", JNum 1); ("name", JStr " summer")] in
  let fs : gmap string file :=
    <[ALBUMS_FILE := Content (JArr [album])]> (<[PHOTOS_FILE := Content (JArr [])]> ∅) in
  let w := World ["summer"] fs (fun _ => None) (fun _ => Ret None) [] in
  trimmed_match " summer" "summer" = true /\
  findAlbum (Some (JArr [album])) (Str.toLowerCase (Str.trim "summer")) = Ret null /\
  albumPhotoListFeature w
  = (Ret tt, World [] fs (fault w) (host_date w)
               [Ask "What is the name of the album? ";
                Load "albums.json"; Load "photos.json"; Out "Album not found"]).
Proof. repeat split; vm_compute; reflexivity. Qed.

(** ** The keyboard is only read *)

Lemma shrinks_ret {A} (a : A) : shrinks (ret a).
Proof. intros w r w' [= _ <-]. reflexivity. Qed.

Lemma shrinks_lift {A} (x : res A) : shrinks (lift x).
Proof. intros w r w' [= _ <-]. reflexivity. Qed.

Lemma shrinks_bind {A B} (m : M A) (k : A -> M B) :
  shrinks m -> (forall a, shrinks (k a)) -> shrinks (bind m k).
Proof.
  intros Hm Hk w r w' H. unfold bind in H.
  destruct (m w) as [[a|e|s] w1] eqn:E; apply Hm in E.
  - apply Hk in H. lia.
  - injection H as _ <-. exact E.
  - injection H as _ <-. exact E.
Qed.

Lemma shrinks_emit (e : event) : shrinks (emit e).
Proof. intros w r w' [= _ <-]. reflexivity. Qed.

Lemma shrinks_console_log (line : string) : shrinks (console_log line).
Proof. apply shrinks_emit. Qed.

Lemma shrinks_prompt (q : string) : shrinks (prompt q).
Proof.
  intros w r w' H. unfold prompt in H.
  destruct (stdin w) as [|a rest]; injection H as _ <-; cbn; lia.
Qed.

Lemma shrinks_fun {A} (m : world -> M A) : (forall w0, shrinks (m w0)) -> shrinks (fun w => m w w).
Proof. intros H w r w' E. exact (H w w r w' E). Qed.

Lemma shrinks_readJson (path : string) : shrinks (readJson path).
Proof.
  intros w r w' H. unfold readJson, bind, emit, console_log, emit, ret in H.
  cbn in H. destruct (files w !! path) as [[msg|v]|]; injection H as _ <-; reflexivity.
Qed.

Lemma shrinks_writeJson (path : string) (data : json) : shrinks (writeJson path data).
Proof.
  unfold writeJson. apply shrinks_bind; [apply shrinks_emit|]. intros _.
  intros w r w' H. destruct (fault w path).
  - apply shrinks_console_log in H. exact H.
  - injection H as _ <-. reflexivity.
Qed.

Lemma shrinks_formatDate (t : value) : shrinks (formatDate t).
Proof.
  unfold formatDate. destruct t as [[]|]; try apply shrinks_ret;
    (apply shrinks_bind; [|intros; apply shrinks_ret]);
    apply (shrinks_fun (fun w0 => lift (host_date w0 _))); intros; apply shrinks_lift.
Qed.

Lemma shrinks_for_io {St} (body : nat -> St -> M (step St)) :
  (forall i s, shrinks (body i s)) -> forall n i s, shrinks (for_io body n i s).
Proof.
  intros Hb n. induction n as [|n IH]; intros i s; [apply shrinks_ret|].
  cbn [for_io]. apply shrinks_bind; [apply Hb|].
  intros [s'|s']; [apply IH | apply shrinks_ret].
Qed.

Ltac shrink :=
  repeat first
    [ apply shrinks_ret | apply shrinks_lift | apply shrinks_console_log
    | apply shrinks_prompt | apply shrinks_readJson | apply shrinks_writeJson
    | apply shrinks_formatDate
    | apply shrinks_for_io; intros
    | apply shrinks_bind; [|intros ?]
    | match goal with
      | |- shrinks (match ?x with _ => _ end) => destruct x
      end
    | progress cbv zeta ].

Lemma shrinks_displayPhoto (photo albums : value) : shrinks (displayPhoto photo albums).
Proof. unfold displayPhoto. shrink. Qed.

Lemma shrinks_findPhotoFeature : shrinks findPhotoFeature.
Proof. unfold findPhotoFeature. shrink. apply shrinks_displayPhoto. Qed.

Lemma shrinks_updatePhotoDetailsFeature : shrinks updatePhotoDetailsFeature.
Proof. unfold updatePhotoDetailsFeature. shrink. Qed.

Lemma shrinks_albumPhotoListFeature : shrinks albumPhotoListFeature.
Proof. unfold albumPhotoListFeature. shrink. Qed.

Lemma shrinks_tagPhotoFeature : shrinks tagPhotoFeature.
Proof. unfold tagPhotoFeature. shrink. Qed.

Lemma shrinks_dispatch (selection : string) (op : M unit) :
  dispatch selection = Some op -> shrinks op.
Proof.
  unfold dispatch. intros H.
  repeat match type of H with
         | (if ?c then _ else _) = _ => destruct c
         end; try discriminate; injection H as <-.
  - apply shrinks_findPhotoFeature.
  - apply shrinks_updatePhotoDetailsFeature.
  - apply shrinks_albumPhotoListFeature.
  - apply shrinks_tagPhotoFeature.
Qed.

(** ** The menu loop *)

Lemma menu_prompt {A} (w : world) (answer : string) (rest : list string)
    (k : string -> M A) :
  stdin w = answer :: rest ->
  (menu ;; x <- prompt "Your selection> " ;; k x)%io w = k answer (asked w rest).
Proof.
  intros H. destruct w as [inp fs flt hd tr]. cbn in H. subst inp.
  unfold menu, bind, console_log, emit, prompt, asked. cbn.
  rewrite <- !app_assoc. reflexivity.
Qed.

Lemma menuLoop_unfold (fuel : nat) (w : world) (answer : string) (rest : list string) :
  stdin w = answer :: rest ->
  menuLoop (S fuel) w
  = match dispatch (Str.trim answer) with
    | Some op => (op ;; menuLoop fuel)%io (asked w rest)
    | None =>
        if String.eqb (Str.trim answer) "5" then console_log "Goodbye" (asked w rest)
        else (console_log "Invalid selection" ;; menuLoop fuel)%io (asked w rest)
    end.
Proof.
  intros H. cbn [menuLoop]. rewrite (menu_prompt w answer rest _ H).
  unfold dispatch. cbv zeta.
  repeat match goal with
         | |- context [String.eqb ?a ?b] => destruct (String.eqb a b) eqn:?
         end; try reflexivity; congruence.
Qed.

Lemma menuLoop_round (fuel : nat) (w w' : world) :
  round w w' -> menuLoop (S fuel) w = menuLoop fuel w'.
Proof.
  intros [answer rest op Hin Hop Hrun | answer rest Hin Hnone Hfive ->];
    rewrite (menuLoop_unfold fuel w answer rest Hin).
  - rewrite Hop. unfold bind. rewrite Hrun. reflexivity.
  - rewrite Hnone. apply String.eqb_neq in Hfive. rewrite Hfive. reflexivity.
Qed.

Lemma round_shrinks (w w' : world) :
  round w w' -> (length (stdin w') < length (stdin w))%nat.
Proof.
  intros [answer rest op Hin Hop Hrun | answer rest Hin Hnone Hfive ->]; rewrite Hin.
  - apply (shrinks_dispatch _ _ Hop) in Hrun. cbn in *. lia.
  - cbn. lia.
Qed.

Lemma rounds_menuLoop (w w' : world) :
  rtc round w w' ->
  forall fuel, (length (stdin w) < fuel)%nat ->
  exists fuel', (length (stdin w') < fuel')%nat /\ menuLoop fuel w = menuLoop fuel' w'.
Proof.
  induction 1 as [w | w w1 w' Hstep _ IH]; intros fuel Hfuel; [eauto|].
  destruct fuel as [|fuel]; [lia|].
  pose proof (round_shrinks _ _ Hstep) as Hlt.
  destruct (IH fuel ltac:(lia)) as (fuel' & Hfuel' & Heq).
  exists fuel'. split; [exact Hfuel'|].
  rewrite (menuLoop_round fuel w w1 Hstep). exact Heq.
Qed.

(** C5, as the code has it.  After any number of rounds, an error raised
    by the operation selected leaves the loop: it is caught by the one
    handler around the loop and reported with its message, and [main]
    returns.  The lines not yet read stay unread, and no menu follows. *)
Theorem error_ends_session
    (w0 w w1 : world) (answer : string) (rest : list string) (op : M unit) (e : error) :
  rtc round (logged w0 [Out "Digital Media Catalog - INFS3201"]) w ->
  stdin w = answer :: rest ->
  dispatch (Str.trim answer) = Some op ->
  op (asked w rest) = (Exn e, w1) ->
  main w0 = (Ret tt, logged w1 [Out ("Unexpected error " +:+ message e)]).
Proof.
  intros Hrounds Hin Hop Hrun.
  destruct (rounds_menuLoop _ _ Hrounds (S (length (stdin w0)))) as (fuel & Hfuel & Heq).
  { cbn. lia. }
  destruct fuel as [|fuel]; [lia|].
  rewrite (menuLoop_unfold fuel w answer rest Hin), Hop in Heq.
  unfold bind at 1 in Heq. rewrite Hrun in Heq.
  unfold main, try_catch, bind at 1, console_log at 1, emit at 1.
  change (World (stdin w0) (files w0) (fault w0) (host_date w0)
            (trace w0 ++ [Out "Digital Media Catalog - INFS3201"]))
    with (logged w0 [Out "Digital Media Catalog - INFS3201"]).
  rewrite Heq. reflexivity.
Qed.

Lemma error_ends_session_witness :
  main (Sample.broken ["x"; "1"; "7"; "5"])
  = (Ret tt,
     World ["5"] (Sample.catalog (JArr [JNull])) Sample.no_fault Sample.no_date
       [Out "Digital Media Catalog - INFS3201";
        Out ""; Out "1. Find Photo"; Out "2. Update Photo Details";
        Out "3. Album Photo List"; Out "4. Tag Photo"; Out "5. Exit";
        Ask "Your selection> "; Out "Invalid selection";
        Out ""; Out "1. Find Photo"; Out "2. Update Photo Details";
        Out "3. Album Photo List"; Out "4. Tag Photo"; Out "5. Exit";
        Ask "Your selection> "; Ask "Photo ID? ";
        Load "photos.json"; Load "albums.json";
        Out "Unexpected error Cannot read properties of null (reading 'id')"]).
Proof.
  apply (error_ends_session (Sample.broken ["x"; "1"; "7"; "5"])
           (logged (asked (logged (Sample.broken ["x"; "1"; "7"; "5"])
                             [Out "Digital Media Catalog - INFS3201"])
                          ["1"; "7"; "5"])
                   [Out "Invalid selection"])
           (World ["5"] (Sample.catalog (JArr [JNull])) Sample.no_fault Sample.no_date
              [Out "Digital Media Catalog - INFS3201";
               Out ""; Out "1. Find Photo"; Out "2. Update Photo Details";
               Out "3. Album Photo List"; Out "4. Tag Photo"; Out "5. Exit";
               Ask "Your selection> "; Out "Invalid selection";
               Out ""; Out "1. Find Photo"; Out "2. Update Photo Details";
               Out "3. Album Photo List"; Out "4. Tag Photo"; Out "5. Exit";
               Ask "Your selection> "; Ask "Photo ID? ";
               Load "photos.json"; Load "albums.json"])
           "1" ["7"; "5"] findPhotoFeature (CannotRead "null" "id")).
  - eapply rtc_l; [|apply rtc_refl].
    apply (round_refused _ _ "x" ["1"; "7"; "5"]); [reflexivity | reflexivity | | reflexivity].
    vm_compute. discriminate.
  - reflexivity.
  - reflexivity.
  - vm_compute. reflexivity.
Defined.

(** C5, as the claim words it, fails: after the error of the first
    operation the session does not go on to the next menu.  The line "5"
    typed for it is never read, the menu is printed once, and "Goodbye" is
    not. *)
Lemma session_ends_at_first_error :
  main (Sample.broken ["1"; "7"; "5"])
  = (Ret tt,
     World ["5"] (Sample.catalog (JArr [JNull])) Sample.no_fault Sample.no_date
       [Out "Digital Media Catalog - INFS3201";
        Out ""; Out "1. Find Photo"; Out "2. Update Photo Details";
        Out "3. Album Photo List"; Out "4. Tag Photo"; Out "5. Exit";
        Ask "Your selection> "; Ask "Photo ID? ";
        Load "photos.json"; Load "albums.json";
        Out "Unexpected error Cannot read properties of null (reading 'id')"]).
Proof. vm_compute. reflexivity. Qed.

(** ** Members and elements *)

Lemma assoc_set_same (k : string) (v : json) (m : list (string * json)) :
  assoc k (assoc_set k v m) = Some v.
Proof.
  induction m as [|[k' v'] m IH]; cbn.
  - rewrite String.eqb_refl. reflexivity.
  - destruct (String.eqb k k') eqn:E; cbn; rewrite ?String.eqb_refl, ?E; auto.
Qed.

Lemma assoc_set_other (k k' : string) (v : json) (m : list (string * json)) :
  k <> k' -> assoc k' (assoc_set k v m) = assoc k' m.
Proof.
  intros Hne. induction m as [|[k0 v0] m IH]; cbn.
  - apply String.eqb_neq in Hne. rewrite String.eqb_sym, Hne. reflexivity.
  - destruct (String.eqb k k0) eqn:E; cbn.
    + apply String.eqb_eq in E. subst k0.
      assert (String.eqb k' k = false) as -> by (apply String.eqb_neq; congruence).
      reflexivity.
    + destruct (String.eqb k' k0); auto.
Qed.

Lemma insert_middle (pre suf : list json) (p v : json) :
  <[length pre := v]> (pre ++ p :: suf) = pre ++ v :: suf.
Proof. induction pre as [|q pre IH]; cbn; [reflexivity|]. f_equal. exact IH. Qed.

Lemma set_index_middle (pre suf : list json) (p v : json) :
  set_index (JArr (pre ++ p :: suf)) (length pre) v = JArr (pre ++ v :: suf).
Proof. cbn [set_index]. f_equal. apply insert_middle. Qed.

Lemma has_id_object (id : Z) (p : json) :
  has_id id p = true -> exists m, p = JObj m /\ assoc "id" m = Some (JNum id).
Proof.
  destruct p as [|b|n|s|items|m]; try discriminate. intros H.
  exists m. split; [reflexivity | apply has_id_exact, H].
Qed.

Lemma answered_other (k k' answer : string) (m : list (string * json)) :
  k <> k' -> assoc k' (answered k answer m) = assoc k' m.
Proof.
  intros Hne. unfold answered.
  destruct (String.eqb (Str.trim answer) ""); [reflexivity | apply assoc_set_other, Hne].
Qed.

Lemma answered_same (k answer : string) (m : list (string * json)) :
  assoc k (answered k answer m)
  = if String.eqb (Str.trim answer) "" then assoc k m else Some (JStr answer).
Proof.
  unfold answered.
  destruct (String.eqb (Str.trim answer) ""); [reflexivity | apply assoc_set_same].
Qed.

(** ** Running an operation step by step *)

Ltac fields := cbn [stdin files fault host_date trace].
Ltac fields_in H := cbn [stdin files fault host_date trace] in H.

(** The next step of the run in the goal is a question, a line printed, a
    file read whose content [H] gives, or a pure computation whose result
    [H] gives. *)
Ltac run_prompt := unfold bind at 1, prompt at 1; fields.
Ltac run_log := unfold bind at 1, console_log at 1, emit at 1; fields.
Ltac run_read H :=
  unfold bind at 1, readJson at 1, bind at 1, emit at 1; fields;
  rewrite H; unfold ret at 1.
Ltac run_pure H := rewrite H; unfold bind at 1, lift at 1.
Ltac run_write flt :=
  unfold bind at 1, writeJson at 1, bind at 1, emit at 1; fields;
  unfold stored, saved, console_log, emit;
  destruct (flt PHOTOS_FILE); fields; rewrite <- !app_assoc; reflexivity.

(** The same steps in a hypothesis [H] that states a run. *)
Ltac inv_prompt H := unfold bind at 1, prompt at 1 in H; fields_in H.
Ltac inv_read H :=
  unfold bind at 1, readJson at 1, bind at 1, emit at 1 in H; fields_in H.
Ltac inv_pure H := unfold bind at 1, lift at 1 in H.

(** The run [H] has stopped, and its last event is not the one [Hlast]
    says. *)
Ltac dead H Hlast :=
  solve [ injection H as <- <-; cbn [trace] in Hlast;
          rewrite ?last_snoc in Hlast; congruence ].

(** ** Update Photo Details *)

(** A run of Update Photo Details that finds the photo: the questions
    asked, the collection saved and the confirmation. *)
Lemma update_run_any (w : world) (idInput newTitle newDesc : string) (rest : list string)
    (id : Z) (photos photo : json) (index : nat) (title description : value)
    (t0 d0 : string) :
  stdin w = idInput :: newTitle :: newDesc :: rest ->
  Str.parseInt idInput = Some id ->
  files w !! PHOTOS_FILE = Some (Content photos) ->
  truthy (Some photos) = true ->
  indexOfId (Some photos) id = Ret (Some index) ->
  get_index (Some photos) index = Ret (Some photo) ->
  get_field (Some photo) "title" = Ret title ->
  shown title = Ret t0 ->
  get_field (Some (edited "title" newTitle photo)) "description" = Ret description ->
  shown description = Ret d0 ->
  let photos' :=
    set_index photos index
      (edited "description" newDesc (edited "title" newTitle photo)) in
  updatePhotoDetailsFeature w
  = (Ret tt,
     World rest (stored (fault w) photos' (files w)) (fault w) (host_date w)
       (trace w ++
        [Ask "Photo ID? "; Load PHOTOS_FILE;
         Out "Press enter to reuse existing value.";
         Ask ("Enter value for title [" +:+ t0 +:+ "]: ");
         Ask ("Enter value for description [" +:+ d0 +:+ "]: ")]
        ++ saved (fault w) photos' "Photo updated")).
Proof.
  intros Hin Hid Hfile Htruthy Hindex Hat Htitle Ht Hdesc Hd photos'.
  destruct w as [inp fs flt hd tr]. fields_in Hin. fields_in Hfile. fields. subst inp.
  unfold updatePhotoDetailsFeature.
  run_prompt. rewrite Hid.
  run_read Hfile. rewrite Htruthy. cbn [negb].
  run_pure Hindex. run_pure Hat. run_log. run_pure Htitle.
  unfold bind at 1, lift at 1, concat at 1. fold (shown title). rewrite Ht. cbn [res_bind].
  run_prompt. fold (edited "title" newTitle photo). run_pure Hdesc.
  unfold bind at 1, lift at 1, concat at 1. fold (shown description). rewrite Hd.
  cbn [res_bind].
  run_prompt. fold (edited "description" newDesc (edited "title" newTitle photo)).
  fold photos'. run_write flt.
Qed.

Lemma edited_object (k answer : string) (m : list (string * json)) :
  edited k answer (JObj m) = JObj (answered k answer m).
Proof. unfold edited, answered. destruct (String.eqb (Str.trim answer) ""); reflexivity. Qed.

(** The same run, on an array in which the photo is the first with the
    identifier. *)
Lemma update_run (w : world) (idInput newTitle newDesc : string) (rest : list string)
    (id : Z) (pre suf : list json) (m : list (string * json)) (t0 d0 : string) :
  stdin w = idInput :: newTitle :: newDesc :: rest ->
  Str.parseInt idInput = Some id ->
  files w !! PHOTOS_FILE = Some (Content (JArr (pre ++ JObj m :: suf))) ->
  Forall (clean id) pre ->
  has_id id (JObj m) = true ->
  shown (assoc "title" m) = Ret t0 ->
  shown (assoc "description" m) = Ret d0 ->
  let m' := answered "description" newDesc (answered "title" newTitle m) in
  let photos' := JArr (pre ++ JObj m' :: suf) in
  updatePhotoDetailsFeature w
  = (Ret tt,
     World rest (stored (fault w) photos' (files w)) (fault w) (host_date w)
       (trace w ++
        [Ask "Photo ID? "; Load PHOTOS_FILE;
         Out "Press enter to reuse existing value.";
         Ask ("Enter value for title [" +:+ t0 +:+ "]: ");
         Ask ("Enter value for description [" +:+ d0 +:+ "]: ")]
        ++ saved (fault w) photos' "Photo updated")).
Proof.
  intros Hin Hid Hfile Hpre Hp Ht Hd m' photos'.
  pose proof (update_run_any w idInput newTitle newDesc rest id
                (JArr (pre ++ JObj m :: suf)) (JObj m) (length pre)
                (assoc "title" m) (assoc "description" m) t0 d0
                Hin Hid Hfile eq_refl) as H.
  rewrite !edited_object, set_index_middle in H. apply H; clear H; auto.
  - rewrite indexOfId_scan, (scan_found _ _ _ _ _ Hpre Hp). reflexivity.
  - cbn [get_index]. rewrite list_lookup_middle by reflexivity. reflexivity.
  - cbn [get_field]. rewrite (answered_other "title" "description") by discriminate.
    reflexivity.
Qed.
Lemma update_inv (w w' : world) (r : res unit) :
  updatePhotoDetailsFeature w = (r, w') ->
  last (trace w') = Some (Out "Photo updated") ->
  exists idInput newTitle newDesc rest id photos photo index title description t0 d0,
    stdin w = idInput :: newTitle :: newDesc :: rest /\
    Str.parseInt idInput = Some id /\
    files w !! PHOTOS_FILE = Some (Content photos) /\
    truthy (Some photos) = true /\
    indexOfId (Some photos) id = Ret (Some index) /\
    get_index (Some photos) index = Ret (Some photo) /\
    get_field (Some photo) "title" = Ret title /\
    shown title = Ret t0 /\
    get_field (Some (edited "title" newTitle photo)) "description" = Ret description /\
    shown description = Ret d0.
Proof.
  destruct w as [inp fs flt hd tr]. unfold updatePhotoDetailsFeature. intros H Hlast.
  inv_prompt H. destruct inp as [|idInput inp]; [dead H Hlast|].
  destruct (Str.parseInt idInput) as [id|] eqn:Hid; [|dead H Hlast].
  inv_read H.
  destruct (fs !! PHOTOS_FILE) as [[msg|photos]|] eqn:Hfile; try dead H Hlast.
  unfold ret at 1 in H.
  destruct (truthy (Some photos)) eqn:Htruthy; [|dead H Hlast]. cbn [negb] in H.
  inv_pure H.
  destruct (indexOfId (Some photos) id) as [[index|]|e|s] eqn:Hindex; try dead H Hlast.
  inv_pure H.
  destruct (get_index (Some photos) index) as [[photo|]|e|s] eqn:Hat; try dead H Hlast.
  all: unfold bind at 1, console_log at 1, emit at 1 in H; fields_in H;
    try dead H Hlast.
  inv_pure H.
  destruct (get_field (Some photo) "title") as [title|e|s] eqn:Htitle; try dead H Hlast.
  unfold bind at 1, lift at 1, concat at 1 in H. fold (shown title) in H.
  destruct (shown title) as [t0|e|s] eqn:Ht; cbn [res_bind] in H; try dead H Hlast.
  inv_prompt H. destruct inp as [|newTitle inp]; [dead H Hlast|].
  fold (edited "title" newTitle photo) in H.
  inv_pure H.
  destruct (get_field (Some (edited "title" newTitle photo)) "description")
    as [description|e|s] eqn:Hdesc; try dead H Hlast.
  unfold bind at 1, lift at 1, concat at 1 in H. fold (shown description) in H.
  destruct (shown description) as [d0|e|s] eqn:Hd; cbn [res_bind] in H; try dead H Hlast.
  inv_prompt H. destruct inp as [|newDesc rest]; [dead H Hlast|].
  exists idInput, newTitle, newDesc, rest, id, photos, photo, index, title, description, t0, d0.
  cbn [stdin files]. repeat split; assumption.
Qed.

(** C3.  In a run of Update Photo Details that finds the photo and saves,
    each of [title] and [description] is stored as it was when the answer
    is blank, and is the answer as typed, untrimmed, otherwise. *)
Theorem update_stores_answers
    (w : world) (idInput newTitle newDesc : string) (rest : list string)
    (id : Z) (pre suf : list json) (m : list (string * json)) (t0 d0 : string) :
  stdin w = idInput :: newTitle :: newDesc :: rest ->
  Str.parseInt idInput = Some id ->
  files w !! PHOTOS_FILE = Some (Content (JArr (pre ++ JObj m :: suf))) ->
  Forall (clean id) pre ->
  has_id id (JObj m) = true ->
  shown (assoc "title" m) = Ret t0 ->
  shown (assoc "description" m) = Ret d0 ->
  fault w PHOTOS_FILE = None ->
  exists w' m',
    updatePhotoDetailsFeature w = (Ret tt, w') /\
    files w' !! PHOTOS_FILE = Some (Content (JArr (pre ++ JObj m' :: suf))) /\
    assoc "title" m'
    = (if String.eqb (Str.trim newTitle) "" then assoc "title" m
       else Some (JStr newTitle)) /\
    assoc "description" m'
    = (if String.eqb (Str.trim newDesc) "" then assoc "description" m
       else Some (JStr newDesc)).
Proof.
  intros Hin Hid Hfile Hpre Hp Ht Hd Hfault.
  eexists _, _. split; [|split; [|split]].
  - exact (update_run w idInput newTitle newDesc rest id pre suf m t0 d0
             Hin Hid Hfile Hpre Hp Ht Hd).
  - cbn [files]. unfold stored. rewrite Hfault. apply lookup_insert_eq.
  - rewrite (answered_other "description" "title") by discriminate.
    apply answered_same.
  - rewrite answered_same, (answered_other "title" "description") by discriminate.
    reflexivity.
Qed.

Lemma update_stores_answers_witness :
  exists w' m',
    updatePhotoDetailsFeature (Sample.sound ["1"; "  "; " At the lake "; "5"])
    = (Ret tt, w') /\
    files w' !! PHOTOS_FILE = Some (Content (JArr ([] ++ JObj m' :: [Sample.photo2]))) /\
    assoc "title" m' = Some (JStr "A") /\
    assoc "description" m' = Some (JStr " At the lake ").
Proof.
  apply (update_stores_answers (Sample.sound ["1"; "  "; " At the lake "; "5"])
           "1" "  " " At the lake " ["5"] 1 [] [Sample.photo2]
           [("id", JNum 1); ("filename", JStr "a.jpg"); ("title", JStr "A");
            ("tags", JArr [JStr "x"]); ("albums", JArr [JNum 10])]
           "A" "");
    first [reflexivity | constructor].
Defined.

Lemma clean_no_id (id : Z) (l : list json) :
  Forall (clean id) l -> Forall (fun q => has_id id q = false) l.
Proof. intros H. eapply Forall_impl; [exact H|]. intros q [_ Hq]. exact Hq. Qed.

(** C10.  In every run of Update Photo Details on an array of photos that
    ends with "Photo updated", the collection handed to the save is the one
    loaded with one element replaced: the first photo whose [id] is the
    number typed.  The elements before and after it, their order and their
    number are the same, and every member of that photo other than [title]
    and [description] is the same. *)
Theorem update_frame (w w' : world) (r : res unit) (l : list json) :
  updatePhotoDetailsFeature w = (r, w') ->
  last (trace w') = Some (Out "Photo updated") ->
  files w !! PHOTOS_FILE = Some (Content (JArr l)) ->
  exists idInput id pre m m' suf questions,
    head (stdin w) = Some idInput /\
    Str.parseInt idInput = Some id /\
    l = pre ++ JObj m :: suf /\
    Forall (fun q => has_id id q = false) pre /\
    has_id id (JObj m) = true /\
    trace w'
    = trace w ++ [Ask "Photo ID? "; Load PHOTOS_FILE] ++ questions
      ++ saved (fault w) (JArr (pre ++ JObj m' :: suf)) "Photo updated" /\
    files w' = stored (fault w) (JArr (pre ++ JObj m' :: suf)) (files w) /\
    length (pre ++ JObj m' :: suf) = length l /\
    forall k, k <> "title" -> k <> "description" -> assoc k m' = assoc k m.
Proof.
  intros Hrun Hlast Hfile.
  destruct (update_inv w w' r Hrun Hlast)
    as (idInput & newTitle & newDesc & rest & id & photos & photo & index & title
        & description & t0 & d0 & Hin & Hid & Hfile' & Htruthy & Hindex & Hat
        & Htitle & Ht & Hdesc & Hd).
  rewrite Hfile in Hfile'. injection Hfile' as <-.
  rewrite indexOfId_scan in Hindex.
  destruct (scan_inv _ _ _ _ _ Hindex) as (pre & p & suf & -> & Hpre & Hp & ->).
  destruct (has_id_object _ _ Hp) as (m & -> & _).
  cbn [get_index Nat.add] in Hat. rewrite list_lookup_middle in Hat by reflexivity.
  injection Hat as <-.
  cbn [get_field] in Htitle. injection Htitle as <-.
  rewrite edited_object in Hdesc. cbn [get_field] in Hdesc.
  rewrite (answered_other "title" "description") in Hdesc by discriminate.
  injection Hdesc as <-.
  pose proof (update_run w idInput newTitle newDesc rest id pre suf m t0 d0
                Hin Hid Hfile Hpre Hp Ht Hd) as Hrun'.
  cbv zeta in Hrun'. rewrite Hrun in Hrun'. injection Hrun' as -> ->.
  exists idInput, id, pre, m,
    (answered "description" newDesc (answered "title" newTitle m)), suf,
    [Out "Press enter to reuse existing value.";
     Ask ("Enter value for title [" +:+ t0 +:+ "]: ");
     Ask ("Enter value for description [" +:+ d0 +:+ "]: ")].
  rewrite Hin. cbn [head stdin files trace].
  repeat split; auto using clean_no_id.
  - rewrite !length_app. reflexivity.
  - intros k Hk1 Hk2. rewrite !answered_other by congruence. reflexivity.
Qed.

Lemma update_frame_witness :
  exists idInput id pre m m' suf questions,
    head ["2"; "Lake"; ""; "5"] = Some idInput /\
    Str.parseInt idInput = Some id /\
    [Sample.photo1; Sample.photo2] = pre ++ JObj m :: suf /\
    Forall (fun q => has_id id q = false) pre /\
    has_id id (JObj m) = true /\
    trace (snd (updatePhotoDetailsFeature (Sample.sound ["2"; "Lake"; ""; "5"])))
    = [] ++ [Ask "Photo ID? "; Load PHOTOS_FILE] ++ questions
      ++ saved Sample.no_fault (JArr (pre ++ JObj m' :: suf)) "Photo updated" /\
    files (snd (updatePhotoDetailsFeature (Sample.sound ["2"; "Lake"; ""; "5"])))
    = stored Sample.no_fault (JArr (pre ++ JObj m' :: suf))
        (Sample.catalog (JArr [Sample.photo1; Sample.photo2])) /\
    length (pre ++ JObj m' :: suf) = length [Sample.photo1; Sample.photo2] /\
    forall k, k <> "title" -> k <> "description" -> assoc k m' = assoc k m.
Proof.
  apply (update_frame (Sample.sound ["2"; "Lake"; ""; "5"])
           (snd (updatePhotoDetailsFeature (Sample.sound ["2"; "Lake"; ""; "5"])))
           (fst (updatePhotoDetailsFeature (Sample.sound ["2"; "Lake"; ""; "5"])))
           [Sample.photo1; Sample.photo2]).
  - vm_compute. reflexivity.
  - vm_compute. reflexivity.
  - reflexivity.
Defined.

(** ** Tag Photo *)

(** A run of Tag Photo that finds the photo and a duplicate of the tag. *)
Lemma tag_run_duplicate (w : world) (idInput tagInput : string) (rest : list string)
    (id : Z) (photos : json) (photo : value) (index : nat) (pt : value) :
  stdin w = idInput :: tagInput :: rest ->
  Str.parseInt idInput = Some id ->
  String.eqb (Str.trim tagInput) "" = false ->
  files w !! PHOTOS_FILE = Some (Content photos) ->
  truthy (Some photos) = true ->
  indexOfId (Some photos) id = Ret (Some index) ->
  get_index (Some photos) index = Ret photo ->
  get_field photo "tags" = Ret pt ->
  isDuplicate (js_or pt (Some (JArr []))) (Str.trim tagInput) = Ret true ->
  tagPhotoFeature w
  = (Ret tt,
     World rest (files w) (fault w) (host_date w)
       (trace w ++
        [Ask "What photo ID to tag? "; Ask "What tag to add (single tag)? ";
         Load PHOTOS_FILE; Out "Tag already exists, no changes made"])).
Proof.
  intros Hin Hid Htag Hfile Htruthy Hindex Hat Htags Hdup.
  destruct w as [inp fs flt hd tr]. fields_in Hin. fields_in Hfile. fields. subst inp.
  unfold tagPhotoFeature.
  run_prompt. rewrite Hid. run_prompt. rewrite Htag. cbv zeta.
  run_read Hfile. rewrite Htruthy. cbn [negb].
  run_pure Hindex. run_pure Hat. run_pure Htags. run_pure Hdup.
  unfold console_log, emit. fields. rewrite <- !app_assoc. reflexivity.
Qed.

(** A run of Tag Photo that finds the photo and no duplicate of the tag. *)
Lemma tag_run_added (w : world) (idInput tagInput : string) (rest : list string)
    (id : Z) (photos photo tags' : json) (index : nat) (pt : value) :
  stdin w = idInput :: tagInput :: rest ->
  Str.parseInt idInput = Some id ->
  String.eqb (Str.trim tagInput) "" = false ->
  files w !! PHOTOS_FILE = Some (Content photos) ->
  truthy (Some photos) = true ->
  indexOfId (Some photos) id = Ret (Some index) ->
  get_index (Some photos) index = Ret (Some photo) ->
  get_field (Some photo) "tags" = Ret pt ->
  isDuplicate (js_or pt (Some (JArr []))) (Str.trim tagInput) = Ret false ->
  push (js_or pt (Some (JArr []))) (Str.trim tagInput) = Ret tags' ->
  let photos' := set_index photos index (set_field photo "tags" tags') in
  tagPhotoFeature w
  = (Ret tt,
     World rest (stored (fault w) photos' (files w)) (fault w) (host_date w)
       (trace w ++
        [Ask "What photo ID to tag? "; Ask "What tag to add (single tag)? ";
         Load PHOTOS_FILE]
        ++ saved (fault w) photos' "Updated!")).
Proof.
  intros Hin Hid Htag Hfile Htruthy Hindex Hat Htags Hdup Hpush photos'.
  destruct w as [inp fs flt hd tr]. fields_in Hin. fields_in Hfile. fields. subst inp.
  unfold tagPhotoFeature.
  run_prompt. rewrite Hid. run_prompt. rewrite Htag. cbv zeta.
  run_read Hfile. rewrite Htruthy. cbn [negb].
  run_pure Hindex. run_pure Hat. run_pure Htags. run_pure Hdup. run_pure Hpush.
  fold photos'. run_write flt.
Qed.

(** What a run of Tag Photo that ends with "Updated!" went through. *)
Lemma tag_inv (w w' : world) (r : res unit) :
  tagPhotoFeature w = (r, w') ->
  last (trace w') = Some (Out "Updated!") ->
  exists idInput tagInput rest id photos photo tags' index pt,
    stdin w = idInput :: tagInput :: rest /\
    Str.parseInt idInput = Some id /\
    String.eqb (Str.trim tagInput) "" = false /\
    files w !! PHOTOS_FILE = Some (Content photos) /\
    truthy (Some photos) = true /\
    indexOfId (Some photos) id = Ret (Some index) /\
    get_index (Some photos) index = Ret (Some photo) /\
    get_field (Some photo) "tags" = Ret pt /\
    isDuplicate (js_or pt (Some (JArr []))) (Str.trim tagInput) = Ret false /\
    push (js_or pt (Some (JArr []))) (Str.trim tagInput) = Ret tags'.
Proof.
  destruct w as [inp fs flt hd tr]. unfold tagPhotoFeature. intros H Hlast.
  inv_prompt H. destruct inp as [|idInput inp]; [dead H Hlast|].
  destruct (Str.parseInt idInput) as [id|] eqn:Hid; [|dead H Hlast].
  inv_prompt H. destruct inp as [|tagInput rest]; [dead H Hlast|].
  destruct (String.eqb (Str.trim tagInput) "") eqn:Htag; [dead H Hlast|]. cbv zeta in H.
  inv_read H.
  destruct (fs !! PHOTOS_FILE) as [[msg|photos]|] eqn:Hfile; try dead H Hlast.
  unfold ret at 1 in H.
  destruct (truthy (Some photos)) eqn:Htruthy; [|dead H Hlast]. cbn [negb] in H.
  inv_pure H.
  destruct (indexOfId (Some photos) id) as [[index|]|e|s] eqn:Hindex; try dead H Hlast.
  inv_pure H.
  destruct (get_index (Some photos) index) as [photo|e|s] eqn:Hat; try dead H Hlast.
  inv_pure H.
  destruct (get_field photo "tags") as [pt|e|s] eqn:Htags; try dead H Hlast.
  inv_pure H.
  destruct (isDuplicate (js_or pt (Some (JArr []))) (Str.trim tagInput))
    as [[|]|e|s] eqn:Hdup; try dead H Hlast.
  inv_pure H.
  destruct (push (js_or pt (Some (JArr []))) (Str.trim tagInput))
    as [tags'|e|s] eqn:Hpush; try dead H Hlast.
  destruct photo as [photo|]; [|dead H Hlast].
  exists idInput, tagInput, rest, id, photos, photo, tags', index, pt.
  cbn [stdin files]. repeat split; assumption.
Qed.

Lemma isDuplicate_array (ts : list json) (tag : string) :
  isDuplicate (Some (JArr ts)) tag
  = fold_res
      (fun (_ : nat) x (_ : bool) =>
         s <- String_ x ;;
         Ret (if String.eqb (Str.toLowerCase s) (Str.toLowerCase tag)
              then Break true else Next false))%res
      0 ts false.
Proof.
  unfold isDuplicate. cbn [get_length to_bound res_bind].
  rewrite iterations_length.
  exact (for_res_array
    (fun (_ : nat) x (_ : bool) =>
       s <- String_ x ;;
       Ret (if String.eqb (Str.toLowerCase s) (Str.toLowerCase tag)
            then Break true else Next false))%res
    ts false).
Qed.

(** Among tags that are texts, the duplicate test is a search up to case. *)
Lemma isDuplicate_texts (texts : list string) (tag : string) :
  isDuplicate (Some (JArr (JStr <$> texts))) tag
  = Ret (existsb (fun t => String.eqb (Str.toLowerCase t) (Str.toLowerCase tag)) texts).
Proof.
  rewrite isDuplicate_array. generalize 0%nat.
  induction texts as [|t texts IH]; intros i; [reflexivity|].
  cbn [fmap list_fmap fold_res String_ to_string res_bind existsb].
  destruct (String.eqb (Str.toLowerCase t) (Str.toLowerCase tag)); [reflexivity|].
  apply IH.
Qed.

(** A test that answers "no duplicate" has converted every tag to a text
    and found it different. *)
Lemma isDuplicate_false (ts : list json) (tag : string) :
  isDuplicate (Some (JArr ts)) tag = Ret false -> Forall (differs tag) ts.
Proof.
  rewrite isDuplicate_array. generalize 0%nat.
  induction ts as [|x ts IH]; intros i H; [constructor|].
  cbn [fold_res String_] in H.
  destruct (to_string x) as [s|e|st] eqn:Hs; cbn [res_bind] in H; try discriminate.
  destruct (String.eqb (Str.toLowerCase s) (Str.toLowerCase tag)) eqn:E;
    [discriminate|].
  constructor; [|exact (IH _ H)].
  exists s. split; [exact Hs | apply String.eqb_neq, E].
Qed.

Lemma push_inv (tags : value) (tag : string) (tags' : json) :
  push tags tag = Ret tags' ->
  exists ts, tags = Some (JArr ts) /\ tags' = JArr (ts ++ [JStr tag]).
Proof.
  destruct tags as [[|b|n|s|ts|m]|]; try discriminate.
  intros [= <-]. eauto.
Qed.

(** C1.  When the tags of the photo are texts and one of them equals the
    requested tag, trimmed, up to case, Tag Photo prints "Tag already
    exists, no changes made" and returns: nothing is saved and the files
    are as they were. *)
Theorem duplicate_tag_not_saved
    (w : world) (idInput tagInput : string) (rest : list string)
    (id : Z) (pre suf : list json) (m : list (string * json))
    (texts : list string) (t : string) :
  stdin w = idInput :: tagInput :: rest ->
  Str.parseInt idInput = Some id ->
  Str.trim tagInput <> "" ->
  files w !! PHOTOS_FILE = Some (Content (JArr (pre ++ JObj m :: suf))) ->
  Forall (clean id) pre ->
  has_id id (JObj m) = true ->
  assoc "tags" m = Some (JArr (JStr <$> texts)) ->
  t ∈ texts ->
  Str.toLowerCase t = Str.toLowerCase (Str.trim tagInput) ->
  tagPhotoFeature w
  = (Ret tt,
     World rest (files w) (fault w) (host_date w)
       (trace w ++
        [Ask "What photo ID to tag? "; Ask "What tag to add (single tag)? ";
         Load PHOTOS_FILE; Out "Tag already exists, no changes made"])).
Proof.
  intros Hin Hid Htag Hfile Hpre Hp Htags Ht Heq.
  apply (tag_run_duplicate w idInput tagInput rest id
           (JArr (pre ++ JObj m :: suf)) (Some (JObj m)) (length pre)
           (Some (JArr (JStr <$> texts)))); auto.
  - apply String.eqb_neq, Htag.
  - rewrite indexOfId_scan, (scan_found _ _ _ _ _ Hpre Hp). reflexivity.
  - cbn [get_index]. rewrite list_lookup_middle by reflexivity. reflexivity.
  - cbn [get_field]. rewrite Htags. reflexivity.
  - cbn [js_or truthy]. rewrite isDuplicate_texts. f_equal.
    apply existsb_exists. exists t. split; [apply list_elem_of_In, Ht|].
    apply String.eqb_eq, Heq.
Qed.

(** "Beach" is added to the second photo; "BEACH" is then refused, and the
    photo file keeps the one tag "Beach". *)
Lemma duplicate_tag_not_saved_witness :
  let tagged :=
    JObj [("id", JNum 2); ("filename", JStr "b.jpg");
          ("resolution", JArr [JNum 640; JNum 480]);
          ("albums", JArr [JNum 11; JNum 10]); ("tags", JArr [JStr "Beach"])] in
  let w1 := snd (tagPhotoFeature (Sample.sound ["2"; "Beach"; "2"; " BEACH "])) in
  files w1 = Sample.catalog (JArr [Sample.photo1; tagged]) /\
  tagPhotoFeature w1
  = (Ret tt,
     World [] (files w1) (fault w1) (host_date w1)
       (trace w1 ++
        [Ask "What photo ID to tag? "; Ask "What tag to add (single tag)? ";
         Load PHOTOS_FILE; Out "Tag already exists, no changes made"])).
Proof.
  intros tagged w1. split; [vm_compute; reflexivity|].
  apply (duplicate_tag_not_saved w1 "2" " BEACH " [] 2 [Sample.photo1] []
           [("id", JNum 2); ("filename", JStr "b.jpg");
            ("resolution", JArr [JNum 640; JNum 480]);
            ("albums", JArr [JNum 11; JNum 10]); ("tags", JArr [JStr "Beach"])]
           ["Beach"] "Beach").
  - reflexivity.
  - reflexivity.
  - vm_compute. discriminate.
  - vm_compute. reflexivity.
  - repeat constructor. discriminate.
  - reflexivity.
  - reflexivity.
  - apply list_elem_of_here.
  - reflexivity.
Defined.






(** The tag is stored trimmed, in the case typed, after the tag the photo
    had; a photo without tags gets its first one. *)
Example tag_appends_sample :
  files (snd (tagPhotoFeature (Sample.sound ["1"; "  Sunset "; "5"]))) !! PHOTOS_FILE
  = Some (Content (JArr
      [JObj [("id", JNum 1); ("filename", JStr "a.jpg"); ("title", JStr "A");
             ("tags", JArr [JStr "x"; JStr "Sunset"]); ("albums", JArr [JNum 10])];
       Sample.photo2]))
  /\
  trace (snd (tagPhotoFeature (Sample.sound ["2"; "Dusk"])))
  = [Ask "What photo ID to tag? "; Ask "What tag to add (single tag)? ";
     Load PHOTOS_FILE;
     Save PHOTOS_FILE
       (JArr [Sample.photo1;
              JObj [("id", JNum 2); ("filename", JStr "b.jpg");
                    ("resolution", JArr [JNum 640; JNum 480]);
                    ("albums", JArr [JNum 11; JNum 10]); ("tags", JArr [JStr "Dusk"])]]);
     Out "Updated!"].
Proof. split; vm_compute; reflexivity. Qed.

(** ** A save that fails *)

Lemma without_fault_fields (w : world) :
  stdin (without_fault w) = stdin w /\ files (without_fault w) = files w /\
  host_date (without_fault w) = host_date w /\ trace (without_fault w) = trace w /\
  fault (without_fault w) PHOTOS_FILE = None.
Proof. repeat split. Qed.

(** C9.  Take a run of Update Photo Details, or of Tag Photo, that ends
    with its confirmation when the save succeeds.  When the save fails with
    a message, the run is the same but for the files, which stay as they
    were, and for one more line, printed between the save and the
    confirmation: the diagnostic that names the file and the message. *)
Theorem save_failure_still_confirms (w : world) (msg : string) :
  fault w PHOTOS_FILE = Some msg ->
  let diagnostic := Out ("Error writing file photos.json - " +:+ msg) in
  let same (op : M unit) (confirmation : string) :=
    forall r w1,
      op (without_fault w) = (r, w1) ->
      last (trace w1) = Some (Out confirmation) ->
      exists evs data,
        trace w1 = trace w ++ evs ++ [Save PHOTOS_FILE data; Out confirmation] /\
        op w = (r, World (stdin w1) (files w) (fault w) (host_date w)
                     (trace w ++ evs
                      ++ [Save PHOTOS_FILE data; diagnostic; Out confirmation])) in
  same updatePhotoDetailsFeature "Photo updated" /\ same tagPhotoFeature "Updated!".
Proof.
  intros Hfault diagnostic same. subst same diagnostic.
  destruct (without_fault_fields w) as (Hs & Hf & Hh & Ht & Hn). split; intros r w1 Hrun Hlast.
  - destruct (update_inv _ _ _ Hrun Hlast)
      as (idInput & newTitle & newDesc & rest & id & photos & photo & index & title
          & description & t0 & d0 & Hin & Hid & Hfile & Htruthy & Hindex & Hat
          & Htitle & Htx & Hdesc & Hdx).
    pose proof (update_run_any _ _ _ _ _ _ _ _ _ _ _ _ _
                  Hin Hid Hfile Htruthy Hindex Hat Htitle Htx Hdesc Hdx) as Hok.
    rewrite Hs in Hin. rewrite Hf in Hfile.
    pose proof (update_run_any _ _ _ _ _ _ _ _ _ _ _ _ _
                  Hin Hid Hfile Htruthy Hindex Hat Htitle Htx Hdesc Hdx) as Hko.
    cbv zeta in Hok, Hko. rewrite Hrun in Hok. injection Hok as -> ->.
    unfold stored, saved in *. rewrite Hfault in Hko. cbn [fault without_fault] in *.
    exists [Ask "Photo ID? "; Load PHOTOS_FILE;
            Out "Press enter to reuse existing value.";
            Ask ("Enter value for title [" +:+ t0 +:+ "]: ");
            Ask ("Enter value for description [" +:+ d0 +:+ "]: ")],
      (set_index photos index
         (edited "description" newDesc (edited "title" newTitle photo))).
    split; [reflexivity|]. rewrite Hko. reflexivity.
  - destruct (tag_inv _ _ _ Hrun Hlast)
      as (idInput & tagInput & rest & id & photos & photo & tags' & index & pt
          & Hin & Hid & Htag & Hfile & Htruthy & Hindex & Hat & Htags & Hdup & Hpush).
    pose proof (tag_run_added _ _ _ _ _ _ _ _ _ _
                  Hin Hid Htag Hfile Htruthy Hindex Hat Htags Hdup Hpush) as Hok.
    rewrite Hs in Hin. rewrite Hf in Hfile.
    pose proof (tag_run_added _ _ _ _ _ _ _ _ _ _
                  Hin Hid Htag Hfile Htruthy Hindex Hat Htags Hdup Hpush) as Hko.
    cbv zeta in Hok, Hko. rewrite Hrun in Hok. injection Hok as -> ->.
    unfold stored, saved in *. rewrite Hfault in Hko. cbn [fault without_fault] in *.
    exists [Ask "What photo ID to tag? "; Ask "What tag to add (single tag)? ";
            Load PHOTOS_FILE],
      (set_index photos index (set_field photo "tags" tags')).
    split; [reflexivity|]. rewrite Hko. reflexivity.
Qed.

Lemma save_failure_still_confirms_witness :
  let w := Sample.locked ["1"; "Dusk"; ""] in
  let diagnostic := Out "Error writing file photos.json - EACCES: permission denied" in
  let same (op : M unit) (confirmation : string) :=
    exists evs data,
      trace (snd (op (without_fault w)))
      = trace w ++ evs ++ [Save PHOTOS_FILE data; Out confirmation] /\
      op w = (fst (op (without_fault w)),
              World (stdin (snd (op (without_fault w)))) (files w) (fault w) (host_date w)
                (trace w ++ evs ++ [Save PHOTOS_FILE data; diagnostic; Out confirmation])) in
  same updatePhotoDetailsFeature "Photo updated" /\ same tagPhotoFeature "Updated!".
Proof.
  intros w diagnostic same.
  destruct (save_failure_still_confirms w "EACCES: permission denied" eq_refl) as [Hu Ht].
  split.
  - apply (Hu (fst (updatePhotoDetailsFeature (without_fault w)))
              (snd (updatePhotoDetailsFeature (without_fault w))));
      vm_compute; reflexivity.
  - apply (Ht (fst (tagPhotoFeature (without_fault w)))
              (snd (tagPhotoFeature (without_fault w))));
      vm_compute; reflexivity.
Defined.

Example save_failure_sample :
  updatePhotoDetailsFeature (Sample.locked ["1"; "Dusk"; ""])
  = (Ret tt,
     World [] (Sample.catalog (JArr [Sample.photo1; Sample.photo2]))
       Sample.read_only Sample.no_date
       [Ask "Photo ID? "; Load "photos.json";
        Out "Press enter to reuse existing value.";
        Ask "Enter value for title [A]: "; Ask "Enter value for description []: ";
        Save "photos.json"
          (JArr [JObj [("id", JNum 1); ("filename", JStr "a.jpg"); ("title", JStr "Dusk");
                       ("tags", JArr [JStr "x"]); ("albums", JArr [JNum 10])];
                 Sample.photo2]);
        Out "Error writing file photos.json - EACCES: permission denied";
        Out "Photo updated"]).
Proof. vm_compute. reflexivity. Qed.

(** ** Album Photo List *)

Lemma append_assoc (a b c : string) : (a +:+ b) +:+ c = a +:+ b +:+ c.
Proof.
  induction a as [|x a IH]; [reflexivity|].
  change (String x ((a +:+ b) +:+ c) = String x (a +:+ b +:+ c)).
  rewrite IH. reflexivity.
Qed.

Lemma append_nil_r (a : string) : a +:+ "" = a.
Proof.
  induction a as [|x a IH]; [reflexivity|].
  change (String x (a +:+ "") = String x a). rewrite IH. reflexivity.
Qed.

Lemma bind_lift {A B} (r : res A) (k : A -> M B) (w : world) :
  bind (lift r) k w
  = match r with
    | Ret a => k a w
    | Exn e => (Exn e, w)
    | Stop s => (Stop s, w)
    end.
Proof. unfold bind, lift. destruct r; reflexivity. Qed.

Lemma bind_bind {A B C} (m : M A) (k : A -> M B) (k' : B -> M C) (w : world) :
  bind (bind m k) k' w = bind m (fun a => bind (k a) k') w.
Proof. unfold bind. destruct (m w) as [[a|e|s] w1]; reflexivity. Qed.

Lemma for_io_suffix {St} (f : nat -> value -> St -> M (step St))
    (pre l : list json) (s : St) (w : world) :
  for_io (fun i s => p <- lift (get_index (Some (JArr (pre ++ l))) i) ;; f i p s)%io
         (length l) (length pre) s w
  = fold_io f (length pre) l s w.
Proof.
  revert pre s w. induction l as [|x l IH]; intros pre s w; [reflexivity|].
  cbn [for_io fold_io length].
  rewrite bind_bind, bind_lift. cbn [get_index].
  rewrite list_lookup_middle by reflexivity.
  unfold bind.
  destruct (f (length pre) (Some x) s w) as [[[s'|s']|e|st] w1]; try reflexivity.
  specialize (IH (pre ++ [x]) s' w1).
  rewrite <- app_assoc, length_app in IH. cbn [app length] in IH.
  rewrite Nat.add_1_r in IH. exact IH.
Qed.

(** The separator follows every item but the last. *)
Lemma fold_join (sep : string) (n : Z) (texts : list string) :
  forall (i : nat) (acc : string),
  n = Z.of_nat (i + length texts) ->
  fold_res
    (fun i x str =>
       str' <- concat str x ;;
       Ret (Next (if (Z.of_nat i <? n - 1) then str' +:+ sep else str')))%res
    i (JStr <$> texts) acc
  = Ret (acc +:+ String.concat sep texts).
Proof.
  induction texts as [|t texts IH]; intros i acc Hn.
  - cbn. rewrite append_nil_r. reflexivity.
  - cbn [fmap list_fmap fold_res concat String_ to_string res_bind].
    destruct texts as [|t' texts].
    + cbn [length] in Hn.
      assert ((Z.of_nat i <? n - 1) = false) as -> by (apply Z.ltb_ge; lia).
      reflexivity.
    + cbn [length] in Hn.
      assert ((Z.of_nat i <? n - 1) = true) as -> by (apply Z.ltb_lt; lia).
      rewrite (IH (S i) _) by (cbn [length]; lia).
      cbn [String.concat]. rewrite !append_assoc. reflexivity.
Qed.

Lemma join_loop_texts (sep : string) (texts : list string) :
  join_loop (Some (Z.of_nat (length (JStr <$> texts))))
            (get_index (Some (JArr (JStr <$> texts)))) sep
  = Ret (String.concat sep texts).
Proof.
  unfold join_loop. rewrite iterations_length.
  pose proof (for_res_array
    (fun i x str =>
       str' <- concat str x ;;
       Ret (Next (if (Z.of_nat i <? Z.of_nat (length (JStr <$> texts)) - 1)
                  then str' +:+ sep else str')))%res
    (JStr <$> texts) "") as H.
  cbv beta in H. cbn [from_option id]. rewrite H.
  apply (fold_join sep _ texts 0 ""). rewrite length_fmap. reflexivity.
Qed.

Lemma omap_text (texts : list string) : omap text (JStr <$> texts) = texts.
Proof. induction texts as [|t texts IH]; cbn; [reflexivity | f_equal; exact IH]. Qed.

Lemma all_texts (l : list json) :
  forallb (fun x => bool_decide (is_Some (text x))) l = true ->
  l = JStr <$> omap text l.
Proof.
  induction l as [|x l IH]; cbn; [reflexivity|].
  intros H. apply andb_prop in H as [Hx Hl].
  destruct x; cbn in *; try discriminate. f_equal. exact (IH Hl).
Qed.

Lemma fold_belongs (aid : Z) (ids : list json) :
  forall i,
  fold_res
    (fun (_ : nat) x (_ : bool) =>
       Ret (if strict_eq x (Some (JNum aid)) then Break true else Next false))
    i ids false
  = Ret (existsb (fun x => match x with JNum n => n =? aid | _ => false end) ids).
Proof.
  induction ids as [|x ids IH]; intros i; [reflexivity|].
  cbn [fold_res existsb res_bind].
  assert (Hx : strict_eq (Some x) (Some (JNum aid))
               = match x with JNum n => n =? aid | _ => false end)
    by (destruct x; reflexivity).
  rewrite Hx. destruct x as [| | n | | |]; cbn [orb]; try apply IH.
  destruct (n =? aid); [reflexivity | apply IH].
Qed.

Lemma belongsTo_ok (m am : list (string * json)) (aid : Z) :
  match assoc "albums" m with None | Some (JArr _) => true | _ => false end = true ->
  assoc "id" am = Some (JNum aid) ->
  belongsTo (Some (JObj m)) (Some (JObj am)) = Ret (in_album aid (JObj m)).
Proof.
  intros H Hid. unfold belongsTo, in_album. cbn [get_field res_bind member].
  assert (Hseq : js_or (assoc "albums" m) (Some (JArr []))
                 = Some (JArr (sequence (assoc "albums" m)))).
  { destruct (assoc "albums" m) as [[]|]; try discriminate H; reflexivity. }
  rewrite Hseq, Hid. cbn [get_length to_bound res_bind]. rewrite iterations_length.
  pose proof (for_res_array
    (fun (_ : nat) x (_ : bool) =>
       Ret (if strict_eq x (Some (JNum aid)) then Break true else Next false))
    (sequence (assoc "albums" m)) false) as Hloop.
  cbv beta in Hloop. rewrite Hloop.
  apply fold_belongs.
Qed.

(** Below [2 ^ 53] a number is printed digit for digit. *)
Lemma of_Z_written (n : Z) : (Z.abs n <? 2 ^ 53) = true -> Str.of_Z n = written n.
Proof.
  intros H. unfold Str.of_Z, Str.double, Str.of_pos.
  rewrite Z.abs_opp, H. destruct (n <? 0) eqn:Hneg.
  - assert (Hpos : (- n <? 2 ^ 53) = true).
    { apply Z.ltb_lt in H, Hneg. apply Z.ltb_lt. lia. }
    rewrite Hpos. destruct n as [|n|n]; try discriminate Hneg. reflexivity.
  - assert (Hpos : (n <? 2 ^ 53) = true).
    { apply Z.ltb_lt in H. apply Z.ltb_ge in Hneg. apply Z.ltb_lt. lia. }
    rewrite Hpos. reflexivity.
Qed.

Lemma resolutionOf_ok (m : list (string * json)) :
  match assoc "resolution" m with
  | None | Some (JStr _) | Some (JArr [JNum _; JNum _]) => true
  | _ => false
  end = true ->
  sized (JObj m) = true ->
  resolutionOf (Some (JObj m)) = Ret (Some (JStr (resolution_text (JObj m)))).
Proof.
  unfold resolutionOf, resolution_text, sized. cbn [get_field member res_bind].
  destruct (assoc "resolution" m) as [[|b|n|s|items|m']|]; try discriminate;
    intros H Hs; try reflexivity.
  - cbn [isArray]. unfold js_or, truthy.
    destruct (String.eqb s "") eqn:E; [|reflexivity].
    apply String.eqb_eq in E. subst s. reflexivity.
  - destruct items as [|[|?|w|?|?|?] [|[|?|h|?|?|?] [|? ?]]]; try discriminate H.
    apply andb_prop in Hs as [Hw Hh].
    cbn [isArray get_index lookup list_lookup res_bind String_ to_string].
    rewrite (of_Z_written w Hw), (of_Z_written h Hh). reflexivity.
Qed.

Lemma tags_ok (m : list (string * json)) :
  match assoc "tags" m with
  | None => true
  | Some (JArr l) => forallb (fun x => bool_decide (is_Some (text x))) l
  | _ => false
  end = true ->
  js_or (assoc "tags" m) (Some (JArr [])) = Some (JArr (JStr <$> tag_texts (JObj m))).
Proof.
  unfold tag_texts. cbn [member].
  destruct (assoc "tags" m) as [[|b|n|s|items|m']|]; try discriminate;
    intros H; [|reflexivity].
  cbn [js_or truthy sequence]. rewrite <- (all_texts items H). reflexivity.
Qed.

(** The round of a well-formed photo. *)
Lemma albumRow_ok (p : json) (am : list (string * json)) (aid : Z) :
  photo_ok p = true ->
  sized p = true ->
  assoc "id" am = Some (JNum aid) ->
  albumRow (Some p) (Some (JObj am))
  = Ret (if in_album aid p then Some (row p) else None).
Proof.
  destruct p as [|b|n|s|items|m]; try discriminate. cbn [photo_ok].
  intros H Hsized Hid. apply andb_prop in H as [H Hres]. apply andb_prop in H as [H Htags].
  apply andb_prop in H as [Hname Halbums].
  unfold albumRow. rewrite (belongsTo_ok m am aid Halbums Hid). cbn [res_bind].
  destruct (in_album aid (JObj m)); [|reflexivity]. cbn [negb].
  rewrite (resolutionOf_ok m Hres Hsized). cbn [res_bind get_field].
  rewrite (tags_ok m Htags). cbn [get_length to_bound res_bind].
  rewrite join_loop_texts. cbn [res_bind].
  unfold row, filename_text. cbn [member].
  destruct (assoc "filename" m) as [[|?|?|f|?|?]|]; try discriminate Hname.
  cbn [String_ to_string res_bind concat]. rewrite !append_assoc. reflexivity.
Qed.

Lemma logged_nil (w : world) : logged w [] = w.
Proof. destruct w. unfold logged. cbn. rewrite app_nil_r. reflexivity. Qed.

Lemma logged_logged (w : world) (a b : list event) :
  logged (logged w a) b = logged w (a ++ b).
Proof. unfold logged. cbn. rewrite app_assoc. reflexivity. Qed.

(** The rounds over a well-formed collection print the lines of the photos
    that belong, in the order of the collection. *)
Lemma fold_rows (am : list (string * json)) (aid : Z) (photos : list json) :
  assoc "id" am = Some (JNum aid) ->
  Forall (fun p => photo_ok p = true) photos ->
  Forall (fun p => sized p = true) photos ->
  forall (i : nat) (w : world),
  fold_io
    (fun (_ : nat) p (_ : unit) =>
       row <- lift (albumRow p (Some (JObj am))) ;;
       match row with
       | Some line => console_log line ;; ret (Next tt)
       | None => ret (Next tt)
       end)%io
    i photos tt w
  = (Ret tt, logged w (Out <$> (row <$> List.filter (in_album aid) photos))).
Proof.
  intros Hid Hok Hsized. revert Hsized.
  induction Hok as [|p photos Hp _ IH]; intros Hsized i w.
  - cbn. rewrite logged_nil. reflexivity.
  - apply Forall_cons in Hsized as [Hs Hsized]. specialize (IH Hsized).
    cbn [fold_io List.filter]. rewrite bind_bind, bind_lift, (albumRow_ok p am aid Hp Hs Hid).
    destruct (in_album aid p).
    + rewrite bind_bind. unfold bind at 1, console_log at 1, emit at 1.
      unfold bind at 1, ret at 1. rewrite IH. cbn [fmap list_fmap].
      f_equal. unfold logged. cbn [stdin files fault host_date trace].
      rewrite <- app_assoc. reflexivity.
    + unfold bind at 1, ret at 1. apply IH.
Qed.

(** C4.  On a catalog shaped as the data model says, in which the album is
    found and has the number [aid] for [id], Album Photo List prints the
    header [filename,resolution,tags] and then, for the photos whose
    [albums] hold the number [aid] and for no other, in the order of the
    collection, the line [<filename>,<resolution>,<tags>]: the resolution is
    the text stored, or the two sizes in decimal around an [x], or nothing;
    the tags are joined by colons, so that a photo without tags gives a line
    that ends with the comma. *)
Theorem album_listing
    (w : world) (albumNameInput : string) (rest : list string)
    (albums photos : list json) (album : json) (aid : Z) :
  stdin w = albumNameInput :: rest ->
  Str.trim albumNameInput <> "" ->
  files w !! ALBUMS_FILE = Some (Content (JArr albums)) ->
  files w !! PHOTOS_FILE = Some (Content (JArr photos)) ->
  Forall (fun a => album_ok a = true) albums ->
  find (matches_name (Str.toLowerCase (Str.trim albumNameInput))) albums = Some album ->
  member "id" album = Some (JNum aid) ->
  Forall (fun p => photo_ok p = true) photos ->
  Forall (fun p => sized p = true) photos ->
  albumPhotoListFeature w
  = (Ret tt,
     World rest (files w) (fault w) (host_date w)
       (trace w ++
        [Ask "What is the name of the album? "; Load ALBUMS_FILE; Load PHOTOS_FILE;
         Out "filename,resolution,tags"]
        ++ (Out <$> (row <$> List.filter (in_album aid) photos))))
  /\ (forall p, tag_texts p = [] ->
        row p = filename_text p +:+ "," +:+ resolution_text p +:+ ",").
Proof.
  intros Hin Hname Halbums Hphotos Haok Hfind Hid Hpok Hsized. split.
  - destruct w as [inp fs flt hd tr]. fields_in Hin. fields_in Halbums.
    fields_in Hphotos. fields. subst inp. unfold albumPhotoListFeature.
    run_prompt. apply String.eqb_neq in Hname. rewrite Hname.
    run_read Halbums. run_read Hphotos. cbn [truthy negb orb].
    rewrite (proj1 (findAlbum_spec albums albumNameInput Haok)), Hfind.
    apply find_some in Hfind as [_ Hmatch].
    destruct album as [|b|n|s|items|am]; try discriminate Hmatch.
    cbn [member] in Hid.
    unfold bind at 1, lift at 1. cbn [truthy negb member].
    run_log. unfold bind at 1, lift at 1. cbn [get_length].
    unfold bind at 1, lift at 1. cbn [to_bound]. rewrite iterations_length.
    rewrite (for_io_suffix
      (fun (_ : nat) p (_ : unit) =>
         row <- lift (albumRow p (Some (JObj am))) ;;
         match row with
         | Some line => console_log line ;; ret (Next tt)
         | None => ret (Next tt)
         end)%io [] photos).
    cbn [length]. rewrite (fold_rows am aid photos Hid Hpok Hsized). unfold logged. fields.
    rewrite <- !app_assoc. reflexivity.
  - intros p Hp. unfold row. rewrite Hp. reflexivity.
Qed.

Lemma album_listing_witness :
  albumPhotoListFeature (Sample.sound [" TRIP "; "5"])
  = (Ret tt,
     World ["5"] (Sample.catalog (JArr [Sample.photo1; Sample.photo2]))
       Sample.no_fault Sample.no_date
       [Ask "What is the name of the album? "; Load ALBUMS_FILE; Load PHOTOS_FILE;
        Out "filename,resolution,tags"; Out "a.jpg,,x"; Out "b.jpg,640x480,"])
  /\ (forall p, tag_texts p = [] ->
        row p = filename_text p +:+ "," +:+ resolution_text p +:+ ",").
Proof.
  apply (album_listing (Sample.sound [" TRIP "; "5"]) " TRIP " ["5"]
           [Sample.trip] [Sample.photo1; Sample.photo2] Sample.trip 10).
  - reflexivity.
  - vm_compute. discriminate.
  - reflexivity.
  - reflexivity.
  - repeat constructor.
  - reflexivity.
  - reflexivity.
  - repeat constructor.
  - repeat constructor.
Defined.

(** A photo of another album only is left out, and the sizes of a
    resolution are printed digit for digit. *)
Example album_listing_sample :
  trace (snd (albumPhotoListFeature
                (World ["trip"]
                   (Sample.catalog
                      (JArr [JObj [("id", JNum 3); ("filename", JStr "c.jpg");
                                   ("resolution", JArr [JNum 4032; JNum 3024]);
                                   ("tags", JArr [JStr "sea"; JStr "sun"]);
                                   ("albums", JArr [JNum 10])];
                             JObj [("id", JNum 4); ("filename", JStr "d.jpg");
                                   ("albums", JArr [JNum 11; JStr "10"])]]))
                   Sample.no_fault Sample.no_date [])))
  = [Ask "What is the name of the album? "; Load ALBUMS_FILE; Load PHOTOS_FILE;
     Out "filename,resolution,tags"; Out "c.jpg,4032x3024,sea:sun"].
Proof. vm_compute. reflexivity. Qed.

(** Sizes from [2 ^ 53] on are printed as [String] prints a double: with
    the fewest digits that tell it from its neighbours, and with an exponent
    from [10 ^ 21] on. *)
Example album_listing_large_sizes :
  trace (snd (albumPhotoListFeature
                (World ["trip"]
                   (Sample.catalog
                      (JArr [JObj [("id", JNum 5); ("filename", JStr "e.jpg");
                                   ("resolution", JArr [JNum (2 ^ 60); JNum (10 ^ 21)]);
                                   ("albums", JArr [JNum 10])]]))
                   Sample.no_fault Sample.no_date [])))
  = [Ask "What is the name of the album? "; Load ALBUMS_FILE; Load PHOTOS_FILE;
     Out "filename,resolution,tags"; Out "e.jpg,1152921504606847000x1e+21,"].
Proof. vm_compute. reflexivity. Qed.

(** ** A session, end to end *)

(** The photo 1 of the sample catalog is looked up, then the session is
    left. *)
Example session_find_then_exit :
  trace (snd (main (Sample.sound ["1"; "1"; "5"])))
  = [Out "Digital Media Catalog - INFS3201";
     Out ""; Out "1. Find Photo"; Out "2. Update Photo Details";
     Out "3. Album Photo List"; Out "4. Tag Photo"; Out "5. Exit";
     Ask "Your selection> "; Ask "Photo ID? ";
     Load "photos.json"; Load "albums.json";
     Out "Filename: a.jpg"; Out "Title: A"; Out "Date: Unknown";
     Out "Albums: Trip"; Out "Tags: x";
     Out ""; Out "1. Find Photo"; Out "2. Update Photo Details";
     Out "3. Album Photo List"; Out "4. Tag Photo"; Out "5. Exit";
     Ask "Your selection> "; Out "Goodbye"]
  /\ fst (main (Sample.sound ["1"; "1"; "5"])) = Ret tt.
Proof. split; vm_compute; reflexivity. Qed.

(** A tag already there, in the same case, is refused. *)
Example session_same_tag :
  tagPhotoFeature (Sample.sound ["1"; "x"])
  = (Ret tt,
     World [] (Sample.catalog (JArr [Sample.photo1; Sample.photo2]))
       Sample.no_fault Sample.no_date
       [Ask "What photo ID to tag? "; Ask "What tag to add (single tag)? ";
        Load "photos.json"; Out "Tag already exists, no changes made"]).
Proof. vm_compute. reflexivity. Qed.

(** An identifier beyond [2 ^ 53] is looked up as the double it rounds to. *)
Example session_rounded_id :
  trace (snd (updatePhotoDetailsFeature
                (World ["9007199254740993"; "Far"; ""]
                   (Sample.catalog (JArr [JObj [("id", JNum 9007199254740992)]]))
                   Sample.no_fault Sample.no_date [])))
  = [Ask "Photo ID? "; Load PHOTOS_FILE; Out "Press enter to reuse existing value.";
     Ask "Enter value for title []: "; Ask "Enter value for description []: ";
     Save PHOTOS_FILE (JArr [JObj [("id", JNum 9007199254740992); ("title", JStr "Far")]]);
     Out "Photo updated"].
Proof. vm_compute. reflexivity. Qed.

(** A photo file that holds an object whose [length] is a text is searched
    like an array. *)
Example session_object_catalog :
  trace (snd (tagPhotoFeature
                (World ["1"; "sea"]
                   (Sample.catalog
                      (JObj [("length", JStr "1"); ("0", JObj [("id", JNum 1)])]))
                   Sample.no_fault Sample.no_date [])))
  = [Ask "What photo ID to tag? "; Ask "What tag to add (single tag)? ";
     Load PHOTOS_FILE;
     Save PHOTOS_FILE
       (JObj [("length", JStr "1");
              ("0", JObj [("id", JNum 1); ("tags", JArr [JStr "sea"])])]);
     Out "Updated!"].
Proof. vm_compute. reflexivity. Qed.

(** * Further properties *)

(** ** Storage access *)

Lemma readJson_run (path : string) (w : world) :
  readJson path w = (Ret (loaded (files w) path), logged w (load_events (files w) path)).
Proof.
  destruct w as [inp fs flt hd tr].
  unfold readJson, loaded, load_events, logged, bind, emit, console_log, emit, ret.
  cbn [stdin files fault host_date trace].
  destruct (fs !! path) as [[msg|v]|]; cbn [stdin files fault host_date trace];
    rewrite <- ?app_assoc; reflexivity.
Qed.

(** ** Operations that save nothing *)

Lemma writes_app (a b : list event) : writes (a ++ b) = writes a ++ writes b.
Proof. apply omap_app. Qed.

Lemma unchanged_refl (w : world) : unchanged w w.
Proof. repeat split. exists []. rewrite app_nil_r. auto. Qed.

Lemma unchanged_trans (w1 w2 w3 : world) :
  unchanged w1 w2 -> unchanged w2 w3 -> unchanged w1 w3.
Proof.
  intros (Hf & Hflt & Hh & e1 & Ht & He1) (Hf' & Hflt' & Hh' & e2 & Ht' & He2).
  repeat split; try congruence.
  exists (e1 ++ e2). rewrite Ht', Ht, <- app_assoc, writes_app, He1, He2. auto.
Qed.

Lemma unchanged_logged (w : world) (evs : list event) :
  writes evs = [] -> unchanged w (logged w evs).
Proof. intros H. repeat split. exists evs. auto. Qed.

Lemma quiet_ret {A} (a : A) : quiet (ret a).
Proof. intros w r w' [= _ <-]. apply unchanged_refl. Qed.

Lemma quiet_lift {A} (x : res A) : quiet (lift x).
Proof. intros w r w' [= _ <-]. apply unchanged_refl. Qed.

Lemma quiet_bind {A B} (m : M A) (k : A -> M B) :
  quiet m -> (forall a, quiet (k a)) -> quiet (bind m k).
Proof.
  intros Hm Hk w r w' H. unfold bind in H.
  destruct (m w) as [[a|e|s] w1] eqn:E; apply Hm in E.
  - apply Hk in H. exact (unchanged_trans _ _ _ E H).
  - injection H as _ <-. exact E.
  - injection H as _ <-. exact E.
Qed.

Lemma quiet_console_log (line : string) : quiet (console_log line).
Proof. intros w r w' [= _ <-]. apply (unchanged_logged w [Out line]). reflexivity. Qed.

Lemma quiet_prompt (q : string) : quiet (prompt q).
Proof.
  intros w r w' H. unfold prompt in H.
  destruct (stdin w) as [|a rest]; injection H as _ <-;
    repeat split; exists [Ask q]; auto.
Qed.

Lemma quiet_readJson (path : string) : quiet (readJson path).
Proof.
  intros w r w' H. rewrite readJson_run in H. injection H as _ <-.
  apply unchanged_logged. unfold load_events.
  destruct (files w !! path) as [[msg|v]|]; reflexivity.
Qed.

Lemma quiet_fun {A} (m : world -> M A) : (forall w0, quiet (m w0)) -> quiet (fun w => m w w).
Proof. intros H w r w' E. exact (H w w r w' E). Qed.

Lemma quiet_formatDate (t : value) : quiet (formatDate t).
Proof.
  unfold formatDate. destruct t as [[]|]; try apply quiet_ret;
    (apply quiet_bind; [|intros; apply quiet_ret]);
    apply (quiet_fun (fun w0 => lift (host_date w0 _))); intros; apply quiet_lift.
Qed.

Lemma quiet_for_io {St} (body : nat -> St -> M (step St)) :
  (forall i s, quiet (body i s)) -> forall n i s, quiet (for_io body n i s).
Proof.
  intros Hb n. induction n as [|n IH]; intros i s; [apply quiet_ret|].
  cbn [for_io]. apply quiet_bind; [apply Hb|].
  intros [s'|s']; [apply IH | apply quiet_ret].
Qed.

Ltac hush :=
  repeat first
    [ apply quiet_ret | apply quiet_lift | apply quiet_console_log
    | apply quiet_prompt | apply quiet_readJson | apply quiet_formatDate
    | apply quiet_for_io; intros
    | apply quiet_bind; [|intros ?]
    | match goal with
      | |- quiet (match ?x with _ => _ end) => destruct x
      end
    | progress cbv zeta ].

Lemma quiet_displayPhoto (photo albums : value) : quiet (displayPhoto photo albums).
Proof. unfold displayPhoto. hush. Qed.

(** X2.  Find Photo and Album Photo List only read: whatever is typed,
    whatever the files hold and however the run ends, by a return, an
    exception or the end of the input, the files are as they were and no
    save is among the events. *)
Theorem reading_operations_save_nothing (w w' : world) (r : res unit) :
  findPhotoFeature w = (r, w') \/ albumPhotoListFeature w = (r, w') ->
  files w' = files w /\ exists evs, trace w' = trace w ++ evs /\ writes evs = [].
Proof.
  assert (Hfind : quiet findPhotoFeature).
  { unfold findPhotoFeature. hush. apply quiet_displayPhoto. }
  assert (Hlist : quiet albumPhotoListFeature).
  { unfold albumPhotoListFeature. hush. }
  intros [H|H]; [apply Hfind in H | apply Hlist in H];
    destruct H as (Hf & _ & _ & Hevs); auto.
Qed.

Lemma reading_operations_save_nothing_witness :
  let w := Sample.broken ["7"] in
  files (snd (findPhotoFeature w)) = files w /\
  exists evs, trace (snd (findPhotoFeature w)) = trace w ++ evs /\ writes evs = [].
Proof.
  intros w.
  apply (reading_operations_save_nothing w (snd (findPhotoFeature w))
           (fst (findPhotoFeature w))).
  left. vm_compute. reflexivity.
Defined.

(** ** Operations that save once *)

Lemma once_quiet (c : string) (m : M unit) : quiet m -> saves_once c m.
Proof.
  intros Hm w r w' H. destruct (Hm _ _ _ H) as (Hf & Hflt & Hh & evs & Ht & He).
  repeat split; auto. exists evs. auto.
Qed.

Lemma once_bind {A} (c : string) (m : M A) (k : A -> M unit) :
  quiet m -> (forall a, saves_once c (k a)) -> saves_once c (bind m k).
Proof.
  intros Hm Hk w r w' H. unfold bind in H.
  destruct (m w) as [[a|e|s] w1] eqn:E; apply Hm in E;
    destruct E as (Hf & Hflt & Hh & e1 & Ht & He1).
  - destruct (Hk _ _ _ _ H) as (Hflt' & Hh' & e2 & Ht' & Hcase).
    split; [congruence|]. split; [congruence|].
    exists (e1 ++ e2). split; [rewrite Ht', Ht, app_assoc; reflexivity|].
    rewrite writes_app, He1. cbn [app].
    destruct Hcase as [[He2 Hf']|(Hr & Hlast & data & He2 & Hf')].
    + left. split; [exact He2 | congruence].
    + right. split; [exact Hr|]. split.
      * destruct e2 as [|x e2]; [discriminate Hlast|].
        rewrite last_app. rewrite Hlast. reflexivity.
      * exists data. split; [exact He2|]. rewrite Hf', Hflt, Hf. reflexivity.
  - injection H as _ <-. repeat split; auto. exists e1. auto.
  - injection H as _ <-. repeat split; auto. exists e1. auto.
Qed.

Lemma once_save (c : string) (data : json) :
  saves_once c (writeJson PHOTOS_FILE data ;; console_log c)%io.
Proof.
  intros w r w' H. destruct w as [inp fs flt hd tr].
  unfold bind at 1, writeJson at 1, bind at 1, emit at 1 in H. fields_in H.
  unfold stored. fields.
  destruct (flt PHOTOS_FILE) as [msg|] eqn:Hflt;
    unfold console_log, emit in H; fields_in H; injection H as <- <-; fields;
    (split; [reflexivity|]); (split; [reflexivity|]).
  - exists [Save PHOTOS_FILE data;
            Out ("Error writing file " +:+ PHOTOS_FILE +:+ " - " +:+ msg); Out c].
    split; [rewrite <- !app_assoc; reflexivity|].
    right. repeat split. exists data. split; reflexivity.
  - exists [Save PHOTOS_FILE data; Out c].
    split; [rewrite <- !app_assoc; reflexivity|].
    right. repeat split. exists data. split; reflexivity.
Qed.

Ltac single :=
  repeat first
    [ apply once_save
    | apply once_bind; [solve [hush] | intros ?]
    | apply once_quiet; solve [hush]
    | match goal with
      | |- saves_once _ (match ?x with _ => _ end) => destruct x
      end
    | progress cbv zeta ].

Lemma once_updatePhotoDetailsFeature : saves_once "Photo updated" updatePhotoDetailsFeature.
Proof. unfold updatePhotoDetailsFeature. single. Qed.

Lemma once_tagPhotoFeature : saves_once "Updated!" tagPhotoFeature.
Proof. unfold tagPhotoFeature. single. Qed.



(** ** The session *)

Lemma keeps_quiet {A} (path : string) (m : M A) : quiet m -> keeps path m.
Proof. intros Hm w r w' H. apply Hm in H as (Hf & _). rewrite Hf. reflexivity. Qed.

Lemma keeps_once (path c : string) (m : M unit) :
  path <> PHOTOS_FILE -> saves_once c m -> keeps path m.
Proof.
  intros Hne Hm w r w' H.
  destruct (Hm _ _ _ H) as (_ & _ & evs & _ & [[_ Hf]|(_ & _ & data & _ & Hf)]);
    rewrite Hf; [reflexivity|].
  unfold stored. destruct (fault w PHOTOS_FILE); [reflexivity|].
  apply lookup_insert_ne. congruence.
Qed.

Lemma keeps_bind {A B} (path : string) (m : M A) (k : A -> M B) :
  keeps path m -> (forall a, keeps path (k a)) -> keeps path (bind m k).
Proof.
  intros Hm Hk w r w' H. unfold bind in H.
  destruct (m w) as [[a|e|s] w1] eqn:E; apply Hm in E.
  - apply Hk in H. congruence.
  - injection H as _ <-. exact E.
  - injection H as _ <-. exact E.
Qed.

Lemma keeps_menuLoop (path : string) :
  path <> PHOTOS_FILE -> forall fuel, keeps path (menuLoop fuel).
Proof.
  intros Hne fuel. induction fuel as [|fuel IH]; [apply keeps_quiet, quiet_lift|].
  cbn [menuLoop]. apply keeps_bind; [apply keeps_quiet; unfold menu; hush|]. intros _.
  apply keeps_bind; [apply keeps_quiet, quiet_prompt|]. intros answer. cbv zeta.
  repeat match goal with
         | |- keeps _ (if ?c then _ else _) => destruct c
         end;
    try (apply keeps_quiet, quiet_console_log);
    (apply keeps_bind; [|intros _; exact IH]).
  - apply keeps_quiet. unfold findPhotoFeature. hush. apply quiet_displayPhoto.
  - apply (keeps_once _ _ _ Hne once_updatePhotoDetailsFeature).
  - apply keeps_quiet. unfold albumPhotoListFeature. hush.
  - apply (keeps_once _ _ _ Hne once_tagPhotoFeature).
  - apply keeps_quiet, quiet_console_log.
Qed.

(** X4.  A whole session writes no file but the photo file: whatever is
    typed and however [main] ends, every other path, the album file among
    them, holds what it held before. *)
Theorem session_writes_only_photos (w w' : world) (r : res unit) (path : string) :
  main w = (r, w') ->
  path <> PHOTOS_FILE ->
  files w' !! path = files w !! path.
Proof.
  intros H Hne. unfold main, try_catch in H.
  destruct ((console_log "Digital Media Catalog - INFS3201" ;;
             menuLoop (S (length (stdin w))))%io w) as [[[]|e|s] w1] eqn:E.
  all: assert (Hk : files w1 !! path = files w !! path)
    by (revert E; apply keeps_bind;
        [apply keeps_quiet, quiet_console_log | intros _; apply keeps_menuLoop, Hne]).
  - injection H as _ <-. exact Hk.
  - apply (keeps_quiet path _ (quiet_console_log _)) in H. congruence.
  - injection H as _ <-. exact Hk.
Qed.

Lemma session_writes_only_photos_witness :
  let w := Sample.sound ["4"; "1"; "Dusk"; "2"; "1"; "Lake"; ""; "5"] in
  files (snd (main w)) !! ALBUMS_FILE = files w !! ALBUMS_FILE.
Proof.
  intros w.
  apply (session_writes_only_photos w (snd (main w)) (fst (main w)) ALBUMS_FILE).
  - vm_compute. reflexivity.
  - discriminate.
Defined.

Lemma bind_ret_inv {A B} (m : M A) (k : A -> M B) (w w' : world) (b : B) :
  bind m k w = (Ret b, w') ->
  exists a w1, m w = (Ret a, w1) /\ k a w1 = (Ret b, w').
Proof.
  unfold bind. destruct (m w) as [[a|e|s] w1]; try discriminate. eauto.
Qed.

Lemma menuLoop_returns (fuel : nat) (w w' : world) :
  menuLoop fuel w = (Ret tt, w') -> last (trace w') = Some (Out "Goodbye").
Proof.
  revert w. induction fuel as [|fuel IH]; intros w H; [discriminate|].
  cbn [menuLoop] in H.
  apply bind_ret_inv in H as (_ & w1 & _ & H).
  apply bind_ret_inv in H as (answer & w2 & _ & H). cbv zeta in H.
  repeat match type of H with
         | (if ?c then _ else _) _ = _ => destruct c
         end;
    try (apply bind_ret_inv in H as (_ & w3 & _ & H); exact (IH _ H)).
  injection H as <-. cbn [trace]. apply last_snoc.
Qed.

(** X5.  No exception leaves [main], and [main] returns only after the
    line "Goodbye" of the exit, or after the line that reports an error. *)
Theorem main_outcome (w w' : world) (r : res unit) :
  main w = (r, w') ->
  (forall e, r <> Exn e) /\
  (r = Ret tt ->
   last (trace w') = Some (Out "Goodbye") \/
   exists e, last (trace w') = Some (Out ("Unexpected error " +:+ message e))).
Proof.
  intros H. unfold main, try_catch in H.
  destruct ((console_log "Digital Media Catalog - INFS3201" ;;
             menuLoop (S (length (stdin w))))%io w) as [[[]|e|s] w1] eqn:E.
  - injection H as <- <-. split; [discriminate|]. intros _. left.
    apply bind_ret_inv in E as (_ & w0 & _ & E). exact (menuLoop_returns _ _ _ E).
  - injection H as <- <-. split; [discriminate|]. intros _. right.
    exists e. cbn [trace]. apply last_snoc.
  - injection H as <- <-. split; discriminate.
Qed.

Lemma main_outcome_witness :
  let w := Sample.broken ["1"; "7"; "5"] in
  (forall e, fst (main w) <> Exn e) /\
  (fst (main w) = Ret tt ->
   last (trace (snd (main w))) = Some (Out "Goodbye") \/
   exists e, last (trace (snd (main w))) = Some (Out ("Unexpected error " +:+ message e))).
Proof.
  intros w. apply (main_outcome w (snd (main w)) (fst (main w))).
  vm_compute. reflexivity.
Defined.

(** X6.  After any number of rounds, the selection 5, with or without
    white space around it, prints "Goodbye" and ends the session: [main]
    returns, and the lines typed after it are not read. *)
Theorem exit_ends_session
    (w0 w : world) (answer : string) (rest : list string) :
  rtc round (logged w0 [Out "Digital Media Catalog - INFS3201"]) w ->
  stdin w = answer :: rest ->
  Str.trim answer = "5" ->
  main w0 = (Ret tt, logged (asked w rest) [Out "Goodbye"]).
Proof.
  intros Hrounds Hin Hfive.
  destruct (rounds_menuLoop _ _ Hrounds (S (length (stdin w0)))) as (fuel & Hfuel & Heq).
  { cbn. lia. }
  destruct fuel as [|fuel]; [lia|].
  pose proof (menuLoop_unfold fuel w answer rest Hin) as Hstep.
  rewrite Hfive in Hstep.
  change (menuLoop (S fuel) w = console_log "Goodbye" (asked w rest)) in Hstep.
  rewrite Hstep in Heq.
  unfold main, try_catch, bind at 1, console_log at 1, emit at 1.
  change (World (stdin w0) (files w0) (fault w0) (host_date w0)
            (trace w0 ++ [Out "Digital Media Catalog - INFS3201"]))
    with (logged w0 [Out "Digital Media Catalog - INFS3201"]).
  rewrite Heq. reflexivity.
Qed.

Lemma exit_ends_session_witness :
  main (Sample.sound ["9"; " 5 "; "1"])
  = (Ret tt,
     logged (asked (logged (asked (logged (Sample.sound ["9"; " 5 "; "1"])
                                     [Out "Digital Media Catalog - INFS3201"])
                                  [" 5 "; "1"])
                           [Out "Invalid selection"])
                   ["1"])
            [Out "Goodbye"]).
Proof.
  apply (exit_ends_session (Sample.sound ["9"; " 5 "; "1"]) _ " 5 " ["1"]).
  - eapply rtc_l; [|apply rtc_refl].
    apply (round_refused _ _ "9" [" 5 "; "1"]); [reflexivity | reflexivity | | reflexivity].
    vm_compute. discriminate.
  - reflexivity.
  - reflexivity.
Defined.

(** ** Operations that give up *)

Lemma bind_readJson {A} (path : string) (k : json -> M A) (w : world) :
  bind (readJson path) k w
  = k (loaded (files w) path) (logged w (load_events (files w) path)).
Proof. unfold bind. rewrite readJson_run. reflexivity. Qed.

Lemma bind_prompt {A} (q a : string) (rest : list string) (k : string -> M A) (w : world) :
  stdin w = a :: rest ->
  bind (prompt q) k w
  = k a (World rest (files w) (fault w) (host_date w) (trace w ++ [Ask q])).
Proof. intros H. unfold bind, prompt. rewrite H. reflexivity. Qed.

Lemma console_log_run (line : string) (w : world) :
  console_log line w = (Ret tt, logged w [Out line]).
Proof. reflexivity. Qed.

Lemma unreadable_is_falsy (fs : gmap string file) (path : string) :
  (forall v, fs !! path <> Some (Content v)) -> truthy (Some (loaded fs path)) = false.
Proof.
  intros H. unfold loaded. destruct (fs !! path) as [[msg|v]|]; try reflexivity.
  destruct (H v eq_refl).
Qed.

(** X7.  Update Photo Details refuses an identifier in which [parseInt]
    finds no number as Find Photo and Tag Photo do: it prints "Invalid ID"
    and returns, without a load or a save. *)
Theorem update_invalid_id (w : world) (idInput : string) (rest : list string) :
  stdin w = idInput :: rest ->
  Str.parseInt idInput = None ->
  updatePhotoDetailsFeature w
  = (Ret tt, World rest (files w) (fault w) (host_date w)
               (trace w ++ [Ask "Photo ID? "; Out "Invalid ID"])).
Proof.
  intros Hin Hnan. unfold updatePhotoDetailsFeature.
  rewrite (bind_prompt _ _ _ _ _ Hin), Hnan, console_log_run.
  unfold logged. fields. rewrite <- app_assoc. reflexivity.
Qed.

Lemma update_invalid_id_witness :
  updatePhotoDetailsFeature (Sample.sound ["one"; "x"])
  = (Ret tt, World ["x"] (files (Sample.sound ["one"; "x"])) Sample.no_fault Sample.no_date
               ([] ++ [Ask "Photo ID? "; Out "Invalid ID"])).
Proof. apply (update_invalid_id (Sample.sound ["one"; "x"]) "one" ["x"]); reflexivity. Defined.

(** X8.  A required text that is blank once trimmed is refused before any
    file is read: Tag Photo prints "Tag cannot be empty" and Album Photo List
    prints "Album name required", and both return with the files untouched. *)
Theorem blank_text_aborts (w : world) (first second : string) (rest : list string) :
  stdin w = first :: second :: rest ->
  (forall id, Str.parseInt first = Some id -> Str.trim second = "" ->
     tagPhotoFeature w
     = (Ret tt, World rest (files w) (fault w) (host_date w)
                  (trace w ++ [Ask "What photo ID to tag? ";
                               Ask "What tag to add (single tag)? ";
                               Out "Tag cannot be empty"])))
  /\
  (Str.trim first = "" ->
     albumPhotoListFeature w
     = (Ret tt, World (second :: rest) (files w) (fault w) (host_date w)
                  (trace w ++ [Ask "What is the name of the album? ";
                               Out "Album name required"]))).
Proof.
  intros Hin. split.
  - intros id Hid Hblank. unfold tagPhotoFeature.
    rewrite (bind_prompt _ _ _ _ _ Hin), Hid.
    rewrite (bind_prompt _ second rest) by reflexivity.
    rewrite Hblank. cbn [String.eqb]. rewrite console_log_run.
    unfold logged. fields. rewrite <- !app_assoc. reflexivity.
  - intros Hblank. unfold albumPhotoListFeature.
    rewrite (bind_prompt _ _ _ _ _ Hin), Hblank. cbn [String.eqb].
    rewrite console_log_run. unfold logged. fields. rewrite <- !app_assoc. reflexivity.
Qed.

Lemma blank_text_aborts_witness :
  tagPhotoFeature (Sample.sound ["1"; "   "; "5"])
  = (Ret tt, World ["5"] (files (Sample.sound [])) Sample.no_fault Sample.no_date
               ([] ++ [Ask "What photo ID to tag? ";
                       Ask "What tag to add (single tag)? ";
                       Out "Tag cannot be empty"])).
Proof.
  apply (proj1 (blank_text_aborts (Sample.sound ["1"; "   "; "5"]) "1" "   " ["5"]
                  eq_refl) 1); reflexivity.
Defined.

(** X9.  When the photo file is missing, is not JSON, or holds [null],
    [false], [0] or the empty text, Update Photo Details and Tag Photo print,
    after the diagnostic of the read if there is one, "Could not load
    photos" and return: nothing is searched or saved, and the files are as
    they were. *)
Theorem load_failure_mutating (w : world) (idInput : string) (rest : list string) (id : Z) :
  stdin w = idInput :: rest ->
  Str.parseInt idInput = Some id ->
  truthy (Some (loaded (files w) PHOTOS_FILE)) = false ->
  updatePhotoDetailsFeature w
  = (Ret tt, World rest (files w) (fault w) (host_date w)
               (trace w ++ [Ask "Photo ID? "] ++ load_events (files w) PHOTOS_FILE
                ++ [Out "Could not load photos"]))
  /\
  (forall tagInput rest',
     rest = tagInput :: rest' -> Str.trim tagInput <> "" ->
     tagPhotoFeature w
     = (Ret tt, World rest' (files w) (fault w) (host_date w)
                  (trace w ++ [Ask "What photo ID to tag? ";
                               Ask "What tag to add (single tag)? "]
                   ++ load_events (files w) PHOTOS_FILE
                   ++ [Out "Could not load photos"]))).
Proof.
  intros Hin Hid Hfalsy. split.
  - unfold updatePhotoDetailsFeature.
    rewrite (bind_prompt _ _ _ _ _ Hin), Hid, bind_readJson. fields.
    rewrite Hfalsy. cbn [negb]. rewrite console_log_run.
    unfold logged. fields. rewrite <- !app_assoc. reflexivity.
  - intros tagInput rest' -> Htag. apply String.eqb_neq in Htag.
    unfold tagPhotoFeature.
    rewrite (bind_prompt _ _ _ _ _ Hin), Hid.
    rewrite (bind_prompt _ tagInput rest') by reflexivity.
    rewrite Htag. cbv zeta. rewrite bind_readJson. fields.
    rewrite Hfalsy. cbn [negb]. rewrite console_log_run.
    unfold logged. fields. rewrite <- !app_assoc. reflexivity.
Qed.

Lemma load_failure_mutating_witness :
  let w := World ["1"; "x"] (<[PHOTOS_FILE := Corrupt "Unexpected end of JSON input"]> ∅)
             Sample.no_fault Sample.no_date [] in
  updatePhotoDetailsFeature w
  = (Ret tt, World ["x"] (files w) (fault w) (host_date w)
               ([] ++ [Ask "Photo ID? "] ++
                [Load "photos.json";
                 Out "Error reading file photos.json - Unexpected end of JSON input"]
                ++ [Out "Could not load photos"])).
Proof.
  intros w. apply (proj1 (load_failure_mutating w "1" ["x"] 1 eq_refl eq_refl eq_refl)).
Defined.

(** X10.  Find Photo and Album Photo List read both files before they look
    at either.  When the photo file or the album file is missing, is not
    JSON or holds a falsy value, they print the diagnostics of the reads,
    then "Could not load data files" and "Could not load data", and
    return. *)
Theorem load_failure_reading (w : world) (first : string) (rest : list string) :
  stdin w = first :: rest ->
  truthy (Some (loaded (files w) PHOTOS_FILE)) = false \/
  truthy (Some (loaded (files w) ALBUMS_FILE)) = false ->
  (forall id, Str.parseInt first = Some id ->
     findPhotoFeature w
     = (Ret tt, World rest (files w) (fault w) (host_date w)
                  (trace w ++ [Ask "Photo ID? "]
                   ++ load_events (files w) PHOTOS_FILE
                   ++ load_events (files w) ALBUMS_FILE
                   ++ [Out "Could not load data files"])))
  /\
  (Str.trim first <> "" ->
     albumPhotoListFeature w
     = (Ret tt, World rest (files w) (fault w) (host_date w)
                  (trace w ++ [Ask "What is the name of the album? "]
                   ++ load_events (files w) ALBUMS_FILE
                   ++ load_events (files w) PHOTOS_FILE
                   ++ [Out "Could not load data"]))).
Proof.
  intros Hin Hfalsy.
  assert (Hor : negb (truthy (Some (loaded (files w) PHOTOS_FILE)))
                || negb (truthy (Some (loaded (files w) ALBUMS_FILE))) = true).
  { destruct Hfalsy as [-> | ->]; [reflexivity | apply orb_true_r]. }
  split.
  - intros id Hid. unfold findPhotoFeature.
    rewrite (bind_prompt _ _ _ _ _ Hin), Hid, bind_readJson, bind_readJson.
    cbn [files logged]. rewrite Hor, console_log_run.
    unfold logged. fields. rewrite <- !app_assoc. reflexivity.
  - intros Hname. apply String.eqb_neq in Hname. unfold albumPhotoListFeature.
    rewrite (bind_prompt _ _ _ _ _ Hin), Hname, bind_readJson, bind_readJson.
    cbn [files logged]. rewrite orb_comm in Hor. rewrite Hor, console_log_run.
    unfold logged. fields. rewrite <- !app_assoc. reflexivity.
Qed.

Lemma load_failure_reading_witness :
  let w := World ["1"] (<[PHOTOS_FILE := Content (JArr [Sample.photo1])]> ∅)
             Sample.no_fault Sample.no_date [] in
  findPhotoFeature w
  = (Ret tt, World [] (files w) (fault w) (host_date w)
               ([] ++ [Ask "Photo ID? "] ++ [Load "photos.json"]
                ++ [Load "albums.json";
                    Out "Error reading file albums.json - ENOENT: no such file or directory, open 'albums.json'"]
                ++ [Out "Could not load data files"])).
Proof.
  intros w.
  apply (proj1 (load_failure_reading w "1" [] eq_refl (or_intror eq_refl)) 1 eq_refl).
Defined.

Lemma loaded_content (fs : gmap string file) (path : string) (v : json) :
  fs !! path = Some (Content v) ->
  loaded fs path = v /\ load_events fs path = [Load path].
Proof. intros H. unfold loaded, load_events. rewrite H. auto. Qed.

(** X11.  When no photo of the array has the identifier typed, the three
    operations that look a photo up print "Photo not found" and return;
    nothing is asked further, nothing is saved, and the files are as they
    were. *)
Theorem photo_not_found
    (w : world) (idInput : string) (rest : list string) (id : Z) (l : list json) :
  stdin w = idInput :: rest ->
  Str.parseInt idInput = Some id ->
  files w !! PHOTOS_FILE = Some (Content (JArr l)) ->
  Forall (clean id) l ->
  updatePhotoDetailsFeature w
  = (Ret tt, World rest (files w) (fault w) (host_date w)
               (trace w ++ [Ask "Photo ID? "; Load PHOTOS_FILE; Out "Photo not found"]))
  /\
  (forall tagInput rest',
     rest = tagInput :: rest' -> Str.trim tagInput <> "" ->
     tagPhotoFeature w
     = (Ret tt, World rest' (files w) (fault w) (host_date w)
                  (trace w ++ [Ask "What photo ID to tag? ";
                               Ask "What tag to add (single tag)? ";
                               Load PHOTOS_FILE; Out "Photo not found"])))
  /\
  (truthy (Some (loaded (files w) ALBUMS_FILE)) = true ->
     findPhotoFeature w
     = (Ret tt, World rest (files w) (fault w) (host_date w)
                  (trace w ++ [Ask "Photo ID? "; Load PHOTOS_FILE]
                   ++ load_events (files w) ALBUMS_FILE ++ [Out "Photo not found"]))).
Proof.
  intros Hin Hid Hfile Hclean.
  destruct (loaded_content _ _ _ Hfile) as [Hl He].
  split; [|split].
  - unfold updatePhotoDetailsFeature.
    rewrite (bind_prompt _ _ _ _ _ Hin), Hid, bind_readJson. fields.
    rewrite Hl, He. cbn [truthy negb].
    rewrite indexOfId_scan, (scan_none _ _ _ Hclean), bind_lift, console_log_run.
    unfold logged. fields. rewrite <- !app_assoc. reflexivity.
  - intros tagInput rest' -> Htag. apply String.eqb_neq in Htag.
    unfold tagPhotoFeature.
    rewrite (bind_prompt _ _ _ _ _ Hin), Hid.
    rewrite (bind_prompt _ tagInput rest') by reflexivity.
    rewrite Htag. cbv zeta. rewrite bind_readJson. fields.
    rewrite Hl, He. cbn [truthy negb].
    rewrite indexOfId_scan, (scan_none _ _ _ Hclean), bind_lift, console_log_run.
    unfold logged. fields. rewrite <- !app_assoc. reflexivity.
  - intros Halbums. unfold findPhotoFeature.
    rewrite (bind_prompt _ _ _ _ _ Hin), Hid, bind_readJson, bind_readJson.
    cbn [files logged]. rewrite Hl, He, Halbums. cbn [truthy negb orb].
    rewrite findPhotoById_scan, (scan_none _ _ _ Hclean), bind_lift.
    cbn [res_bind from_option truthy negb]. rewrite console_log_run.
    unfold logged. fields. rewrite <- !app_assoc. reflexivity.
Qed.

Lemma photo_not_found_witness :
  updatePhotoDetailsFeature (Sample.sound ["3"; "x"])
  = (Ret tt, World ["x"] (files (Sample.sound [])) Sample.no_fault Sample.no_date
               ([] ++ [Ask "Photo ID? "; Load PHOTOS_FILE; Out "Photo not found"])).
Proof.
  apply (proj1 (photo_not_found (Sample.sound ["3"; "x"]) "3" ["x"] 3
                  [Sample.photo1; Sample.photo2] eq_refl eq_refl eq_refl
                  ltac:(repeat constructor; discriminate))).
Defined.

Lemma findAlbum_array (l : list json) (requested : string) :
  Forall (fun a => album_ok a = true) l ->
  findAlbum (Some (JArr l)) requested
  = Ret (default null (Some <$> find (matches_name requested) l)).
Proof.
  intros Hl. unfold findAlbum. cbn [get_length to_bound res_bind].
  rewrite iterations_length.
  pose proof (for_res_array
    (fun (_ : nat) a (_ : option value) =>
       name <- get_field a "name" ;;
       if truthy name then
         match name with
         | Some (JStr s) =>
             Ret (if String.eqb (Str.toLowerCase s) requested
                  then Break (Some a) else Next None)
         | _ => Exn (NotFunction "albums[i].name.toLowerCase")
         end
       else Ret (Next None))%res
    l None) as H.
  cbv beta in H. rewrite H, (fold_findAlbum requested l Hl). reflexivity.
Qed.

(** X12.  When no album answers the name typed, Album Photo List prints
    "Album not found" and returns: the header is not printed and no photo is
    listed. *)
Theorem album_not_found
    (w : world) (albumNameInput : string) (rest : list string) (albums : list json) :
  stdin w = albumNameInput :: rest ->
  Str.trim albumNameInput <> "" ->
  files w !! ALBUMS_FILE = Some (Content (JArr albums)) ->
  truthy (Some (loaded (files w) PHOTOS_FILE)) = true ->
  Forall (fun a => album_ok a = true) albums ->
  find (matches_name (Str.toLowerCase (Str.trim albumNameInput))) albums = None ->
  albumPhotoListFeature w
  = (Ret tt, World rest (files w) (fault w) (host_date w)
               (trace w ++ [Ask "What is the name of the album? "; Load ALBUMS_FILE]
                ++ load_events (files w) PHOTOS_FILE ++ [Out "Album not found"])).
Proof.
  intros Hin Hname Hfile Hphotos Hok Hfind. apply String.eqb_neq in Hname.
  destruct (loaded_content _ _ _ Hfile) as [Hl He].
  unfold albumPhotoListFeature.
  rewrite (bind_prompt _ _ _ _ _ Hin), Hname, bind_readJson, bind_readJson.
  cbn [files logged]. rewrite Hl, He, Hphotos. cbn [truthy negb orb].
  rewrite (findAlbum_array albums _ Hok), Hfind, bind_lift.
  cbn [fmap option_fmap option_map from_option truthy negb].
  rewrite console_log_run. unfold logged. fields. rewrite <- !app_assoc. reflexivity.
Qed.

Lemma album_not_found_witness :
  albumPhotoListFeature (Sample.sound ["Trips"])
  = (Ret tt, World [] (files (Sample.sound [])) Sample.no_fault Sample.no_date
               ([] ++ [Ask "What is the name of the album? "; Load ALBUMS_FILE]
                ++ [Load PHOTOS_FILE] ++ [Out "Album not found"])).
Proof.
  apply (album_not_found (Sample.sound ["Trips"]) "Trips" [] [Sample.trip]);
    first [reflexivity | repeat constructor].
  vm_compute. discriminate.
Defined.

(** ** The two searches *)

Lemma scan_pair {B} (k : nat -> json -> B) (id : Z) (l : list json) :
  forall i,
  scan k id i l
  = match scan (fun j p => (j, p)) id i l with
    | Ret (Some (j, p)) => Ret (Some (k j p))
    | Ret None => Ret None
    | Exn e => Exn e
    | Stop s => Stop s
    end.
Proof.
  induction l as [|q l IH]; intros i; [reflexivity|].
  cbn [scan]. destruct q; try reflexivity; try apply IH.
  destruct (has_id id _); [reflexivity | apply IH].
Qed.

(** X13.  In an array, the search of Find Photo and that of Update Photo
    Details and Tag Photo agree: [findPhotoById] returns the element at the
    index [indexOfId] computes and [null] when there is no index, and the
    two throw alike. *)
Theorem searches_agree (l : list json) (id : Z) :
  findPhotoById (Some (JArr l)) id
  = (index <- indexOfId (Some (JArr l)) id ;;
     match index with
     | Some i => get_index (Some (JArr l)) i
     | None => Ret null
     end)%res.
Proof.
  rewrite findPhotoById_scan, indexOfId_scan.
  rewrite (scan_pair (fun _ p => Some p)), (scan_pair (fun i _ => i)).
  destruct (scan (fun j p => (j, p)) id 0 l) as [[[j p]|]|e|s] eqn:E; try reflexivity.
  destruct (scan_inv _ _ _ _ _ E) as (pre & p' & suf & -> & _ & _ & [= -> ->]).
  cbn [res_bind get_index Nat.add from_option].
  rewrite list_lookup_middle by reflexivity. reflexivity.
Qed.

(** ** Find Photo *)

Lemma for_res_ext {St} (body body' : nat -> St -> res (step St)) :
  (forall i s, body i s = body' i s) ->
  forall n i s, for_res body n i s = for_res body' n i s.
Proof.
  intros H n. induction n as [|n IH]; intros i s; [reflexivity|].
  cbn [for_res]. rewrite H. destruct (body' i s) as [[s'|s']|e|st]; cbn [res_bind]; auto.
Qed.

Lemma get_field_member (a : json) (k : string) :
  a <> JNull -> get_field (Some a) k = Ret (member k a).
Proof. intros H. destruct a; try reflexivity. congruence. Qed.

Lemma album_named_ok (a : json) : album_named a = true -> a <> JNull.
Proof. destruct a; discriminate. Qed.

(** The inner loop of lines 90-95: the name of the first album with the
    identifier, if any, is pushed. *)
Lemma fold_album (x : json) (albums : list json) (names : list value) :
  Forall (fun a => album_named a = true) albums ->
  forall j,
  fold_res
    (fun (_ : nat) a names =>
       aid <- get_field a "id" ;;
       if strict_eq aid (Some x)
       then (nm <- get_field a "name" ;; Ret (Break (names ++ [nm])))
       else Ret (Next names))%res
    j albums names
  = Ret (names ++
         match find (fun a => strict_eq (member "id" a) (Some x)) albums with
         | Some a => [member "name" a]
         | None => []
         end).
Proof.
  intros Hok. induction Hok as [|a albums Ha _ IH]; intros j.
  - cbn. rewrite app_nil_r. reflexivity.
  - cbn [fold_res find].
    rewrite !(get_field_member a) by (apply album_named_ok, Ha). cbn [res_bind].
    destruct (strict_eq (member "id" a) (Some x)); [reflexivity | apply IH].
Qed.

Lemma fold_albumNames (albums : list json) (ids : list json) :
  Forall (fun a => album_named a = true) albums ->
  forall (i : nat) (acc : list value),
  fold_res
    (fun (_ : nat) aId albumNames =>
       r <- for_res
              (fun j names =>
                 a <- get_index (Some (JArr albums)) j ;;
                 aid <- get_field a "id" ;;
                 if strict_eq aid aId
                 then (nm <- get_field a "name" ;; Ret (Break (names ++ [nm])))
                 else Ret (Next names))
              (length albums) 0 albumNames ;;
       Ret (Next r))%res
    i ids acc
  = Ret (acc ++ ((fun s => Some (JStr s)) <$> album_names albums ids)).
Proof.
  intros Hok. induction ids as [|x ids IH]; intros i acc.
  - cbn. rewrite app_nil_r. reflexivity.
  - cbn [fold_res].
    pose proof (for_res_array
      (fun (_ : nat) a names =>
         aid <- get_field a "id" ;;
         if strict_eq aid (Some x)
         then (nm <- get_field a "name" ;; Ret (Break (names ++ [nm])))
         else Ret (Next names))%res
      albums acc) as H.
    cbv beta in H. rewrite H, (fold_album x albums acc Hok 0). cbn [res_bind].
    rewrite IH. unfold album_names. cbn [omap list_omap].
    destruct (find (fun a => strict_eq (member "id" a) (Some x)) albums) as [a|] eqn:Hfind.
    + apply find_some in Hfind as [Hin _].
      rewrite Forall_forall in Hok. apply list_elem_of_In, Hok in Hin.
      destruct a as [| | | | |m]; try discriminate Hin. cbn [album_named] in Hin.
      unfold name_text. cbn [member mbind option_bind].
      destruct (assoc "name" m) as [[|?|?|s|?|?]|]; try discriminate Hin.
      cbn [fmap list_fmap]. rewrite <- app_assoc. reflexivity.
    + cbn [mbind option_bind]. rewrite app_nil_r. reflexivity.
Qed.

Lemma albumNamesOf_array (albums ids : list json) :
  Forall (fun a => album_named a = true) albums ->
  albumNamesOf (Some (JArr ids)) (Some (JArr albums))
  = Ret ((fun s => Some (JStr s)) <$> album_names albums ids).
Proof.
  intros Hok. unfold albumNamesOf. cbn [get_length to_bound res_bind].
  rewrite !iterations_length.
  pose proof (for_res_array
    (fun (_ : nat) aId albumNames =>
       r <- for_res
              (fun j names =>
                 a <- get_index (Some (JArr albums)) j ;;
                 aid <- get_field a "id" ;;
                 if strict_eq aid aId
                 then (nm <- get_field a "name" ;; Ret (Break (names ++ [nm])))
                 else Ret (Next names))
              (length albums) 0 albumNames ;;
       Ret (Next r))%res
    ids []) as H.
  cbv beta in H. rewrite H.
  apply (fold_albumNames albums ids Hok 0 []).
Qed.

(** The loop of lines 98-103 over names that are texts. *)
Lemma join_names (texts : list string) :
  join_loop (Some (Z.of_nat (length ((fun s => Some (JStr s)) <$> texts))))
            (fun i => Ret (default undefined (((fun s => Some (JStr s)) <$> texts) !! i)))
            ", "
  = Ret (String.concat ", " texts).
Proof.
  rewrite <- (join_loop_texts ", " texts). unfold join_loop.
  rewrite !length_fmap. apply for_res_ext. intros i s.
  cbn [get_index]. rewrite !list_lookup_fmap. destruct (texts !! i); reflexivity.
Qed.

Lemma bind_console_log {A} (line : string) (k : unit -> M A) (w : world) :
  bind (console_log line) k w = k tt (logged w [Out line]).
Proof. reflexivity. Qed.

Lemma bind_formatDate {A} (t : value) (d : string) (k : string -> M A) (w : world) :
  date_text (host_date w) t = Some d ->
  bind (formatDate t) k w = k d w.
Proof.
  unfold date_text, formatDate. intros H.
  destruct t as [[]|]; try (injection H as <-; reflexivity);
    unfold bind, lift; destruct (host_date w _) as [d1|e1|s1]; try discriminate H;
    injection H as <-; reflexivity.
Qed.

Lemma albums_sequence (v : value) :
  match v with None | Some (JArr _) => true | _ => false end = true ->
  js_or v (Some (JArr [])) = Some (JArr (sequence v)).
Proof. destruct v as [[]|]; try discriminate; reflexivity. Qed.

Lemma shown_text (s : string) : shown (Some (JStr s)) = Ret s.
Proof.
  unfold shown, js_or, truthy. destruct (String.eqb s "") eqn:E; [|reflexivity].
  apply String.eqb_eq in E. subst s. reflexivity.
Qed.

(** What [displayPhoto] prints for a well-formed photo among well-formed
    albums. *)
Lemma displayPhoto_run (w : world) (albums : list json) (p : json) (title date : string) :
  photo_ok p = true ->
  Forall (fun a => album_named a = true) albums ->
  shown (member "title" p) = Ret title ->
  date_text (host_date w) (member "date" p) = Some date ->
  displayPhoto (Some p) (Some (JArr albums)) w
  = (Ret tt, logged w (display_lines albums p title date)).
Proof.
  intros Hp Hok Htitle Hdate.
  destruct p as [|b|n|s|items|m]; try discriminate. cbn [photo_ok] in Hp.
  apply andb_prop in Hp as [Hp Hres]. apply andb_prop in Hp as [Hp Htags].
  apply andb_prop in Hp as [Hname Halbums].
  cbn [member] in Htitle, Hdate.
  unfold displayPhoto, display_lines, filename_text. cbn [truthy negb get_field member].
  rewrite bind_lift.
  destruct (assoc "filename" m) as [[|?|?|f|?|?]|]; try discriminate Hname.
  unfold concat at 1. fold (shown (Some (JStr f))). rewrite shown_text. cbn [res_bind].
  rewrite bind_lift, bind_console_log, bind_lift.
  unfold concat at 1. fold (shown (assoc "title" m)). rewrite Htitle. cbn [res_bind].
  rewrite bind_lift, bind_console_log, bind_lift.
  rewrite (bind_formatDate _ date) by exact Hdate.
  rewrite bind_console_log, bind_lift.
  rewrite (albums_sequence _ Halbums), (albumNamesOf_array albums _ Hok), bind_lift.
  rewrite join_names, bind_lift, bind_console_log, bind_lift.
  rewrite (tags_ok m Htags). cbn [get_length]. rewrite bind_lift.
  cbn [to_bound]. rewrite bind_lift.
  rewrite join_loop_texts, bind_lift, console_log_run, !logged_logged.
  reflexivity.
Qed.

(** A run of Find Photo that finds a well-formed photo. *)
Lemma find_run
    (w : world) (idInput : string) (rest : list string) (id : Z)
    (pre suf albums : list json) (p : json) (title date : string) :
  stdin w = idInput :: rest ->
  Str.parseInt idInput = Some id ->
  files w !! PHOTOS_FILE = Some (Content (JArr (pre ++ p :: suf))) ->
  files w !! ALBUMS_FILE = Some (Content (JArr albums)) ->
  Forall (clean id) pre ->
  has_id id p = true ->
  photo_ok p = true ->
  Forall (fun a => album_named a = true) albums ->
  shown (member "title" p) = Ret title ->
  date_text (host_date w) (member "date" p) = Some date ->
  findPhotoFeature w
  = (Ret tt,
     World rest (files w) (fault w) (host_date w)
       (trace w ++ [Ask "Photo ID? "; Load PHOTOS_FILE; Load ALBUMS_FILE]
        ++ display_lines albums p title date)).
Proof.
  intros Hin Hid Hphotos Halbums Hpre Hp Hok Hnamed Htitle Hdate.
  destruct (loaded_content _ _ _ Hphotos) as [Hl He].
  destruct (loaded_content _ _ _ Halbums) as [Hl' He'].
  unfold findPhotoFeature.
  rewrite (bind_prompt _ _ _ _ _ Hin), Hid, bind_readJson, bind_readJson.
  cbn [files logged]. rewrite Hl, He, Hl', He'. cbn [truthy negb orb].
  rewrite findPhotoById_scan, (scan_found _ _ _ _ _ Hpre Hp), bind_lift.
  cbn [res_bind from_option Datatypes.id].
  assert (Ht : truthy (Some p) = true) by (destruct p; try discriminate Hok; reflexivity).
  rewrite Ht. cbn [negb].
  erewrite (displayPhoto_run _ albums p title date Hok Hnamed Htitle); [|exact Hdate].
  unfold logged. fields. rewrite <- !app_assoc. reflexivity.
Qed.

(** X14.  Find Photo on a well-formed catalog that holds the photo prints
    five lines: the filename, the title, the date, the names of the albums
    of the photo, in the order of its [albums] and without those that no
    album has, and its tags; names and tags are joined by a comma and a
    space, and an empty list is shown as "None".  Nothing is saved. *)
Theorem find_photo_shows
    (w : world) (idInput : string) (rest : list string) (id : Z)
    (pre suf albums : list json) (p : json) (title date : string) :
  stdin w = idInput :: rest ->
  Str.parseInt idInput = Some id ->
  files w !! PHOTOS_FILE = Some (Content (JArr (pre ++ p :: suf))) ->
  files w !! ALBUMS_FILE = Some (Content (JArr albums)) ->
  Forall (clean id) pre ->
  has_id id p = true ->
  photo_ok p = true ->
  Forall (fun a => album_named a = true) albums ->
  shown (member "title" p) = Ret title ->
  date_text (host_date w) (member "date" p) = Some date ->
  findPhotoFeature w
  = (Ret tt,
     World rest (files w) (fault w) (host_date w)
       (trace w ++ [Ask "Photo ID? "; Load PHOTOS_FILE; Load ALBUMS_FILE]
        ++ display_lines albums p title date)).
Proof. apply find_run. Qed.

Lemma find_photo_shows_witness :
  findPhotoFeature (Sample.sound ["2"; "5"])
  = (Ret tt,
     World ["5"] (files (Sample.sound [])) Sample.no_fault Sample.no_date
       ([] ++ [Ask "Photo ID? "; Load PHOTOS_FILE; Load ALBUMS_FILE]
        ++ display_lines [Sample.trip] Sample.photo2 "" "Unknown")).
Proof.
  apply (find_photo_shows (Sample.sound ["2"; "5"]) "2" ["5"] 2
           [Sample.photo1] [] [Sample.trip] Sample.photo2 "" "Unknown");
    first [reflexivity | repeat constructor].
  discriminate.
Defined.

Example sample_display_lines :
  display_lines [Sample.trip] Sample.photo2 "" "Unknown"
  = [Out "Filename: b.jpg"; Out "Title: "; Out "Date: Unknown";
     Out "Albums: Trip"; Out "Tags: None"].
Proof. reflexivity. Qed.

(** ** Runs that save, on an array of photos *)

(** What a run of Update Photo Details that ends with "Photo updated" is,
    on an array of photos. *)
Lemma update_success (w w' : world) (r : res unit) (l : list json) :
  updatePhotoDetailsFeature w = (r, w') ->
  last (trace w') = Some (Out "Photo updated") ->
  files w !! PHOTOS_FILE = Some (Content (JArr l)) ->
  exists idInput newTitle newDesc rest id pre m suf t0 d0,
    stdin w = idInput :: newTitle :: newDesc :: rest /\
    Str.parseInt idInput = Some id /\
    l = pre ++ JObj m :: suf /\
    Forall (clean id) pre /\
    has_id id (JObj m) = true /\
    shown (assoc "title" m) = Ret t0 /\
    shown (assoc "description" m) = Ret d0 /\
    let photos' :=
      JArr (pre ++ JObj (answered "description" newDesc (answered "title" newTitle m))
            :: suf) in
    (r, w')
    = (Ret tt,
       World rest (stored (fault w) photos' (files w)) (fault w) (host_date w)
         (trace w ++
          [Ask "Photo ID? "; Load PHOTOS_FILE;
           Out "Press enter to reuse existing value.";
           Ask ("Enter value for title [" +:+ t0 +:+ "]: ");
           Ask ("Enter value for description [" +:+ d0 +:+ "]: ")]
          ++ saved (fault w) photos' "Photo updated")).
Proof.
  intros Hrun Hlast Hfile.
  destruct (update_inv w w' r Hrun Hlast)
    as (idInput & newTitle & newDesc & rest & id & photos & photo & index & title
        & description & t0 & d0 & Hin & Hid & Hfile' & Htruthy & Hindex & Hat
        & Htitle & Ht & Hdesc & Hd).
  rewrite Hfile in Hfile'. injection Hfile' as <-.
  rewrite indexOfId_scan in Hindex.
  destruct (scan_inv _ _ _ _ _ Hindex) as (pre & p & suf & -> & Hpre & Hp & ->).
  destruct (has_id_object _ _ Hp) as (m & -> & _).
  cbn [get_index Nat.add] in Hat. rewrite list_lookup_middle in Hat by reflexivity.
  injection Hat as <-.
  cbn [get_field] in Htitle. injection Htitle as <-.
  rewrite edited_object in Hdesc. cbn [get_field] in Hdesc.
  rewrite (answered_other "title" "description") in Hdesc by discriminate.
  injection Hdesc as <-.
  exists idInput, newTitle, newDesc, rest, id, pre, m, suf, t0, d0.
  repeat (split; [assumption || reflexivity|]).
  cbv zeta. rewrite <- Hrun.
  apply (update_run w idInput newTitle newDesc rest id pre suf m t0 d0
           Hin Hid Hfile Hpre Hp Ht Hd).
Qed.

(** What a run of Tag Photo that ends with "Updated!" is, on an array of
    photos. *)
Lemma tag_success (w w' : world) (r : res unit) (l : list json) :
  tagPhotoFeature w = (r, w') ->
  last (trace w') = Some (Out "Updated!") ->
  files w !! PHOTOS_FILE = Some (Content (JArr l)) ->
  exists idInput tagInput rest id pre m suf ts,
    stdin w = idInput :: tagInput :: rest /\
    Str.parseInt idInput = Some id /\
    l = pre ++ JObj m :: suf /\
    Forall (clean id) pre /\
    has_id id (JObj m) = true /\
    js_or (assoc "tags" m) (Some (JArr [])) = Some (JArr ts) /\
    Forall (differs (Str.trim tagInput)) ts /\
    let photos' :=
      JArr (pre ++ JObj (assoc_set "tags" (JArr (ts ++ [JStr (Str.trim tagInput)])) m)
            :: suf) in
    (r, w')
    = (Ret tt,
       World rest (stored (fault w) photos' (files w)) (fault w) (host_date w)
         (trace w ++
          [Ask "What photo ID to tag? "; Ask "What tag to add (single tag)? ";
           Load PHOTOS_FILE]
          ++ saved (fault w) photos' "Updated!")).
Proof.
  intros Hrun Hlast Hfile.
  destruct (tag_inv w w' r Hrun Hlast)
    as (idInput & tagInput & rest & id & photos & photo & tags' & index & pt
        & Hin & Hid & Htag & Hfile' & Htruthy & Hindex & Hat & Htags & Hdup & Hpush).
  rewrite Hfile in Hfile'. injection Hfile' as <-.
  pose proof (tag_run_added w idInput tagInput rest id (JArr l) photo tags' index pt
                Hin Hid Htag Hfile Htruthy Hindex Hat Htags Hdup Hpush) as Hrun'.
  cbv zeta in Hrun'. rewrite Hrun in Hrun'.
  rewrite indexOfId_scan in Hindex.
  destruct (scan_inv _ _ _ _ _ Hindex) as (pre & p & suf & -> & Hpre & Hp & ->).
  destruct (has_id_object _ _ Hp) as (m & -> & _).
  cbn [get_index Nat.add] in Hat. rewrite list_lookup_middle in Hat by reflexivity.
  injection Hat as <-.
  cbn [get_field] in Htags. injection Htags as <-.
  destruct (push_inv _ _ _ Hpush) as (ts & Hts & ->).
  rewrite Hts in Hdup. apply isDuplicate_false in Hdup.
  exists idInput, tagInput, rest, id, pre, m, suf, ts.
  repeat (split; [assumption || reflexivity|]).
  cbv zeta. rewrite Hrun'. cbn [Nat.add set_field].
  rewrite set_index_middle. reflexivity.
Qed.

(** X15.  In every run of Tag Photo on an array of photos that ends with
    "Updated!", the collection handed to the save is the one loaded with one
    element replaced, the first photo whose [id] is the number that
    [parseInt] reads in the first line typed, and that photo differs from
    the one loaded by its [tags] only: its other members, the other photos,
    their order and their number are the same. *)
Theorem tag_frame (w w' : world) (r : res unit) (l : list json) :
  tagPhotoFeature w = (r, w') ->
  last (trace w') = Some (Out "Updated!") ->
  files w !! PHOTOS_FILE = Some (Content (JArr l)) ->
  exists idInput id pre m m' suf,
    head (stdin w) = Some idInput /\
    Str.parseInt idInput = Some id /\
    l = pre ++ JObj m :: suf /\
    Forall (fun q => has_id id q = false) pre /\
    has_id id (JObj m) = true /\
    writes (drop (length (trace w)) (trace w'))
    = [(PHOTOS_FILE, JArr (pre ++ JObj m' :: suf))] /\
    length (pre ++ JObj m' :: suf) = length l /\
    forall k, k <> "tags" -> assoc k m' = assoc k m.
Proof.
  intros Hrun Hlast Hfile.
  destruct (tag_success w w' r l Hrun Hlast Hfile)
    as (idInput & tagInput & rest & id & pre & m & suf & ts
        & Hin & Hid & -> & Hpre & Hp & Hts & Hdiff & Heq).
  cbv zeta in Heq. injection Heq as -> ->.
  exists idInput, id, pre, m,
    (assoc_set "tags" (JArr (ts ++ [JStr (Str.trim tagInput)])) m), suf.
  rewrite Hin. cbn [trace head]. rewrite drop_app_length.
  repeat split; auto using clean_no_id.
  - unfold saved. destruct (fault w PHOTOS_FILE); reflexivity.
  - rewrite !length_app. reflexivity.
  - intros k Hk. apply assoc_set_other. congruence.
Qed.

Lemma tag_frame_witness :
  let w := Sample.sound ["2"; "Dusk"] in
  exists idInput id pre m m' suf,
    head ["2"; "Dusk"] = Some idInput /\
    Str.parseInt idInput = Some id /\
    [Sample.photo1; Sample.photo2] = pre ++ JObj m :: suf /\
    Forall (fun q => has_id id q = false) pre /\
    has_id id (JObj m) = true /\
    writes (drop (length (trace w)) (trace (snd (tagPhotoFeature w))))
    = [(PHOTOS_FILE, JArr (pre ++ JObj m' :: suf))] /\
    length (pre ++ JObj m' :: suf) = length [Sample.photo1; Sample.photo2] /\
    forall k, k <> "tags" -> assoc k m' = assoc k m.
Proof.
  intros w.
  apply (tag_frame w (snd (tagPhotoFeature w)) (fst (tagPhotoFeature w))
           [Sample.photo1; Sample.photo2]).
  - vm_compute. reflexivity.
  - vm_compute. reflexivity.
  - reflexivity.
Defined.



(** ** Operations in sequence *)






(** ** Saved, then found *)












(** ** What a session may change in a photo *)

Lemma retouched_trans (p q r : json) : retouched p q -> retouched q r -> retouched p r.
Proof.
  intros [p0|m m' Hm Ht Hd]; [auto|]. intros H.
  inversion H as [q0|m0 m'' Hm' Ht' Hd']; subst.
  - constructor; assumption.
  - constructor.
    + intros k H1 H2 H3. rewrite Hm', Hm by assumption. reflexivity.
    + etransitivity; eassumption.
    + auto.
Qed.

Lemma tidy_tagged (m : list (string * json)) (ts : list json) (tag : string) :
  js_or (assoc "tags" m) (Some (JArr [])) = Some (JArr ts) ->
  Forall (differs tag) ts ->
  tidy (JObj m) = true ->
  tidy (JObj (assoc_set "tags" (JArr (ts ++ [JStr tag])) m)) = true.
Proof.
  intros Hts Hnew Hm. unfold tidy, tag_texts in *. cbn [member] in *.
  rewrite assoc_set_same. cbn [sequence].
  apply andb_prop in Hm as [Htexts Hdistinct].
  assert (Hold : forallb (fun x => bool_decide (is_Some (text x))) ts = true
                 /\ sequence (assoc "tags" m) = ts).
  { destruct (assoc "tags" m) as [[|?|?|?|l|?]|]; try discriminate Htexts.
    - injection Hts as <-. auto.
    - injection Hts as <-. auto. }
  destruct Hold as [Hold Hseq]. rewrite Hseq in Hdistinct.
  apply bool_decide_eq_true in Hdistinct.
  apply andb_true_intro. split.
  - rewrite forallb_app, Hold. reflexivity.
  - apply bool_decide_eq_true. rewrite omap_app, fmap_app. apply NoDup_app.
    split; [exact Hdistinct|]. split; [|apply NoDup_singleton].
    intros x Hx Hin. apply list_elem_of_singleton in Hin. subst x.
    apply list_elem_of_fmap in Hx as (s & Hs & Hx).
    apply list_elem_of_omap in Hx as (x & Hx & Htext).
    destruct x; try discriminate Htext. injection Htext as ->.
    rewrite Forall_forall in Hnew. destruct (Hnew _ Hx) as (s' & Hs' & Hne).
    injection Hs' as <-. congruence.
Qed.

Lemma retouched_all_same (l : list json) : Forall2 retouched l l.
Proof. induction l; constructor; [constructor | assumption]. Qed.

Lemma retouched_middle (pre suf : list json) (m m' : list (string * json)) :
  retouched (JObj m) (JObj m') ->
  Forall2 retouched (pre ++ JObj m :: suf) (pre ++ JObj m' :: suf).
Proof.
  intros H. apply Forall2_app; [apply retouched_all_same|].
  constructor; [exact H | apply retouched_all_same].
Qed.

Lemma retouches_quiet {A} (m : M A) : quiet m -> retouches m.
Proof.
  intros Hm w r w' l H Hfile. apply Hm in H as (Hf & _).
  exists l. rewrite Hf. split; [exact Hfile | apply retouched_all_same].
Qed.

Lemma retouches_bind {A B} (m : M A) (k : A -> M B) :
  retouches m -> (forall a, retouches (k a)) -> retouches (bind m k).
Proof.
  intros Hm Hk w r w' l H Hfile. unfold bind in H.
  destruct (m w) as [[a|e|s] w1] eqn:E; destruct (Hm _ _ _ _ E Hfile) as (l1 & Hf1 & H1).
  - destruct (Hk a _ _ _ _ H Hf1) as (l2 & Hf2 & H2).
    exists l2. split; [exact Hf2|].
    exact (Forall2_trans _ _ _ _ _ _ retouched_trans H1 H2).
  - injection H as _ <-. eauto.
  - injection H as _ <-. eauto.
Qed.

Lemma retouches_stored (w : world) (l l' : list json) :
  files w !! PHOTOS_FILE = Some (Content (JArr l)) ->
  Forall2 retouched l l' ->
  exists l'', stored (fault w) (JArr l') (files w) !! PHOTOS_FILE = Some (Content (JArr l''))
              /\ Forall2 retouched l l''.
Proof.
  intros Hfile H. unfold stored. destruct (fault w PHOTOS_FILE).
  - exists l. split; [exact Hfile | apply retouched_all_same].
  - exists l'. split; [apply lookup_insert_eq | exact H].
Qed.

Lemma retouches_updatePhotoDetailsFeature : retouches updatePhotoDetailsFeature.
Proof.
  intros w r w' l Hrun Hfile.
  destruct (once_updatePhotoDetailsFeature _ _ _ Hrun)
    as (_ & _ & evs & Htr & [[_ Hf]|(_ & Hlast & _)]).
  - exists l. rewrite Hf. split; [exact Hfile | apply retouched_all_same].
  - assert (Hend : last (trace w') = Some (Out "Photo updated"))
      by (rewrite Htr, last_app, Hlast; reflexivity).
    destruct (update_success w w' r l Hrun Hend Hfile)
      as (idInput & newTitle & newDesc & rest & id & pre & m & suf & t0 & d0
          & _ & _ & -> & _ & _ & _ & _ & Heq).
    cbv zeta in Heq. injection Heq as _ ->. fields.
    apply retouches_stored; [exact Hfile|].
    apply retouched_middle. constructor.
    + intros k H1 H2 H3. rewrite !answered_other by congruence. reflexivity.
    + rewrite !answered_other by discriminate. reflexivity.
    + unfold tidy, tag_texts. cbn [member].
      rewrite !answered_other by discriminate. auto.
Qed.

Lemma retouches_tagPhotoFeature : retouches tagPhotoFeature.
Proof.
  intros w r w' l Hrun Hfile.
  destruct (once_tagPhotoFeature _ _ _ Hrun)
    as (_ & _ & evs & Htr & [[_ Hf]|(_ & Hlast & _)]).
  - exists l. rewrite Hf. split; [exact Hfile | apply retouched_all_same].
  - assert (Hend : last (trace w') = Some (Out "Updated!"))
      by (rewrite Htr, last_app, Hlast; reflexivity).
    destruct (tag_success w w' r l Hrun Hend Hfile)
      as (idInput & tagInput & rest & id & pre & m & suf & ts
          & _ & _ & -> & _ & _ & Hts & Hnew & Heq).
    cbv zeta in Heq. injection Heq as _ ->. fields.
    apply retouches_stored; [exact Hfile|].
    apply retouched_middle. constructor.
    + intros k H1 H2 H3. apply assoc_set_other. congruence.
    + rewrite assoc_set_same. cbn [sequence].
      assert (Hold : sequence (assoc "tags" m) = ts).
      { unfold js_or in Hts. destruct (truthy (assoc "tags" m)) eqn:E.
        - rewrite Hts. reflexivity.
        - injection Hts as <-.
          destruct (assoc "tags" m) as [[|?|?|?|?|?]|]; try discriminate E; reflexivity. }
      rewrite Hold. apply prefix_app_r. reflexivity.
    + apply tidy_tagged; assumption.
Qed.

Lemma retouches_menuLoop (fuel : nat) : retouches (menuLoop fuel).
Proof.
  induction fuel as [|fuel IH]; [apply retouches_quiet, quiet_lift|].
  cbn [menuLoop]. apply retouches_bind; [apply retouches_quiet; unfold menu; hush|].
  intros _.
  apply retouches_bind; [apply retouches_quiet, quiet_prompt|]. intros answer. cbv zeta.
  repeat match goal with
         | |- retouches (if ?c then _ else _) => destruct c
         end;
    try (apply retouches_quiet, quiet_console_log);
    (apply retouches_bind; [|intros _; exact IH]).
  - apply retouches_quiet. unfold findPhotoFeature. hush. apply quiet_displayPhoto.
  - apply retouches_updatePhotoDetailsFeature.
  - apply retouches_quiet. unfold albumPhotoListFeature. hush.
  - apply retouches_tagPhotoFeature.
  - apply retouches_quiet, quiet_console_log.
Qed.

Lemma retouches_main : retouches main.
Proof.
  intros w r w' l H Hfile. unfold main, try_catch in H.
  destruct ((console_log "Digital Media Catalog - INFS3201" ;;
             menuLoop (S (length (stdin w))))%io w) as [[[]|e|s] w1] eqn:E.
  all: assert (Hk : exists l1, files w1 !! PHOTOS_FILE = Some (Content (JArr l1))
                               /\ Forall2 retouched l l1)
    by (revert E Hfile; apply retouches_bind;
        [apply retouches_quiet, quiet_console_log | intros _; apply retouches_menuLoop]).
  - injection H as _ <-. exact Hk.
  - apply (quiet_console_log _) in H as (Hf & _). rewrite Hf. exact Hk.
  - injection H as _ <-. exact Hk.
Qed.



Lemma retouched_tidy (l l' : list json) :
  Forall2 retouched l l' ->
  Forall (fun p => tidy p = true) l -> Forall (fun p => tidy p = true) l'.
Proof.
  induction 1 as [|p p' l l' Hp _ IH]; [constructor|].
  intros H. apply Forall_cons in H as [H Hl]. constructor; [|exact (IH Hl)].
  destruct Hp; auto.
Qed.

(** X21.  A session never makes a duplicate tag: when the photo file holds
    an array of photos whose tags are absent or texts that are distinct up
    to case, the same holds of the photo file after [main], however it
    ends. *)
Theorem session_keeps_tags_distinct (w w' : world) (r : res unit) (l : list json) :
  main w = (r, w') ->
  files w !! PHOTOS_FILE = Some (Content (JArr l)) ->
  Forall (fun p => tidy p = true) l ->
  exists l',
    files w' !! PHOTOS_FILE = Some (Content (JArr l')) /\
    length l' = length l /\
    Forall (fun p => tidy p = true) l'.
Proof.
  intros H Hfile Hl. destruct (retouches_main _ _ _ _ H Hfile) as (l' & Hf & Hr).
  exists l'. split; [exact Hf|]. split.
  - symmetry. exact (Forall2_length _ _ _ Hr).
  - exact (retouched_tidy _ _ Hr Hl).
Qed.

Lemma session_keeps_tags_distinct_witness :
  let w := Sample.sound ["4"; "1"; "Dusk"; "4"; "1"; " dusk "; "4"; "1"; "X"; "5"] in
  exists l',
    files (snd (main w)) !! PHOTOS_FILE = Some (Content (JArr l')) /\
    length l' = length [Sample.photo1; Sample.photo2] /\
    Forall (fun p => tidy p = true) l'.
Proof.
  intros w.
  apply (session_keeps_tags_distinct w (snd (main w)) (fst (main w))
           [Sample.photo1; Sample.photo2]).
  - vm_compute. reflexivity.
  - reflexivity.
  - repeat constructor.
Defined.
